(** * brute_zip.py: wordlist search for the password of a ZIP archive

    A shallow embedding of [src/brute_zip.py].  The script is effectful
    Python: it opens files, calls into [zipfile] (and, when installed,
    [pyzipper]), raises and catches exceptions and prints to two streams.
    The embedding makes all of this explicit:

    - the file system, the archive readers and the clock form a [world]
      that the functions consult;
    - the observable effects (standard output, error stream, the sequence
      of library calls) are collected in a [state] threaded through a
      small state-and-exception monad [M];
    - the generator [iter_wordlist] is a finite tree of suspended steps, so
      that the events of a step happen only when the consumer asks for it.

    Exceptions are those derived from Python's [Exception]; asynchronous
    interrupts ([KeyboardInterrupt], [SystemExit]) are not part of the
    model.  Standard output is a text stream with an encoding of its own
    and the error handler [strict], so a [print] of a string outside that
    encoding raises; the error stream escapes what it cannot encode (its
    error handler is [backslashreplace]) and accepts every string.
    Objects are finalised as CPython finalises them: when the last
    reference to them goes away. *)

From Stdlib Require Import List String Ascii NArith ZArith Bool Lia PeanoNat.
From Stdlib.Strings Require Import Byte.
Import ListNotations.

Set Implicit Arguments.

(** ** Python values *)

(** A [str] is a sequence of Unicode code points, a [bytes] object a
    sequence of bytes. *)
Definition codepoint := N.
Definition pystr := list codepoint.
Definition bytes := list byte.

Definition LF : codepoint := 10%N.
Definition CR : codepoint := 13%N.
Definition SLASH : codepoint := 47%N.

(** ASCII literals of the development, read as [str]. *)
Fixpoint py (s : string) : pystr :=
  match s with
  | EmptyString => []
  | String a rest => N_of_ascii a :: py rest
  end.

Definition pystr_eqb (a b : pystr) : bool :=
  if list_eq_dec N.eq_dec a b then true else false.

(** Truth value of a [str]: the empty string is false. *)
Definition truthy (s : pystr) : bool :=
  match s with
  | [] => false
  | _ :: _ => true
  end.

(** ** Exceptions *)

Inductive exn_class : Type :=
  | FileNotFoundError
  | BadZipFile
  | RuntimeError
  | UnicodeEncodeError
  | UnicodeDecodeError
  | OSError
  | OtherException.

Record exn : Type := MkExn { exn_cls : exn_class; exn_msg : string }.

Definition exn_class_eqb (a b : exn_class) : bool :=
  match a, b with
  | FileNotFoundError, FileNotFoundError
  | BadZipFile, BadZipFile
  | RuntimeError, RuntimeError
  | UnicodeEncodeError, UnicodeEncodeError
  | UnicodeDecodeError, UnicodeDecodeError
  | OSError, OSError
  | OtherException, OtherException => true
  | _, _ => false
  end.

(** [except C:] matches an exception of class [C]. *)
Definition isinstance (e : exn) (c : exn_class) : bool :=
  exn_class_eqb (exn_cls e) c.

Inductive result (A : Type) : Type :=
  | Ok (a : A)
  | Raise (e : exn).
Arguments Ok {A} a.
Arguments Raise {A} e.

(** ** Text codecs

    [str.encode(enc)] for the two encodings of the script and the decoder
    of [open(path, 'r', encoding='utf-8', errors=...)]. *)

Inductive codec : Type := UTF8 | Latin1.
Inductive error_handler : Type := Strict | Ignore.

Definition byte_of_N (n : N) : byte :=
  match Byte.of_N n with
  | Some b => b
  | None => x00
  end.

Definition utf8_encode_char (c : codepoint) : option bytes :=
  if (c <? 0x80)%N then Some [byte_of_N c]
  else if (c <? 0x800)%N then
    Some [byte_of_N (N.lor 0xC0 (N.shiftr c 6));
          byte_of_N (N.lor 0x80 (N.land c 0x3F))]
  else if (c <? 0x10000)%N then
    if ((0xD800 <=? c) && (c <=? 0xDFFF))%N then None
    else
      Some [byte_of_N (N.lor 0xE0 (N.shiftr c 12));
            byte_of_N (N.lor 0x80 (N.land (N.shiftr c 6) 0x3F));
            byte_of_N (N.lor 0x80 (N.land c 0x3F))]
  else if (c <? 0x110000)%N then
    Some [byte_of_N (N.lor 0xF0 (N.shiftr c 18));
          byte_of_N (N.lor 0x80 (N.land (N.shiftr c 12) 0x3F));
          byte_of_N (N.lor 0x80 (N.land (N.shiftr c 6) 0x3F));
          byte_of_N (N.lor 0x80 (N.land c 0x3F))]
  else None.

Definition latin1_encode_char (c : codepoint) : option bytes :=
  if (c <? 0x100)%N then Some [byte_of_N c] else None.

Definition encode_char (enc : codec) : codepoint -> option bytes :=
  match enc with
  | UTF8 => utf8_encode_char
  | Latin1 => latin1_encode_char
  end.

Definition encode_error : exn :=
  MkExn UnicodeEncodeError "codec can't encode character".

(** [s.encode(enc)]: raises [UnicodeEncodeError] at the first code point
    the codec cannot represent. *)
Fixpoint str_encode (enc : codec) (s : pystr) : result bytes :=
  match s with
  | [] => Ok []
  | c :: rest =>
      match encode_char enc c with
      | None => Raise encode_error
      | Some bs =>
          match str_encode enc rest with
          | Ok tl => Ok (bs ++ tl)
          | Raise e => Raise e
          end
      end
  end.

(** A UTF-8 sequence that has begun: the bits gathered so far, the number
    of continuation bytes still expected and the range the next byte must
    lie in (the range excludes overlong forms, surrogates and code points
    above U+10FFFF). *)
Record pending : Type := MkPending {
  p_acc : N;
  p_need : nat;
  p_lo : N;
  p_hi : N
}.

Inductive start_result : Type :=
  | SChar (c : codepoint)
  | SLead (p : pending)
  | SInvalid.

Definition utf8_start (b : N) : start_result :=
  if (b <? 0x80)%N then SChar b
  else if (b <? 0xC2)%N then SInvalid
  else if (b <? 0xE0)%N then SLead (MkPending (N.land b 0x1F) 1 0x80 0xBF)
  else if (b =? 0xE0)%N then SLead (MkPending 0 2 0xA0 0xBF)
  else if (b =? 0xED)%N then SLead (MkPending 0xD 2 0x80 0x9F)
  else if (b <? 0xF0)%N then SLead (MkPending (N.land b 0xF) 2 0x80 0xBF)
  else if (b =? 0xF0)%N then SLead (MkPending 0 3 0x90 0xBF)
  else if (b <? 0xF4)%N then SLead (MkPending (N.land b 0x7) 3 0x80 0xBF)
  else if (b =? 0xF4)%N then SLead (MkPending 4 3 0x80 0x8F)
  else SInvalid.

Definition accepts (p : pending) (b : N) : bool :=
  ((p_lo p <=? b) && (b <=? p_hi p))%N.

Definition absorb (p : pending) (b : N) : N :=
  N.lor (N.shiftl (p_acc p) 6) (N.land b 0x3F).

Definition decode_error : exn :=
  MkExn UnicodeDecodeError "codec can't decode byte".

(** What the error handler does with an undecodable byte: [Strict] raises,
    [Ignore] goes on with the rest [k]. *)
Definition on_error (h : error_handler) (k : result pystr) : result pystr :=
  match h with
  | Strict => Raise decode_error
  | Ignore => k
  end.

Definition cons_ok (c : codepoint) (k : result pystr) : result pystr :=
  match k with
  | Ok s => Ok (c :: s)
  | Raise e => Raise e
  end.

(** The incremental UTF-8 decoder, one byte at a time.  A byte that cannot
    continue the pending sequence ends it in error and is then read again
    as the first byte of a new sequence. *)
Fixpoint utf8_decode_from (h : error_handler) (st : option pending)
    (bs : bytes) : result pystr :=
  match bs with
  | [] =>
      match st with
      | None => Ok []
      | Some _ => on_error h (Ok [])
      end
  | b :: rest =>
      let fresh :=
        match utf8_start (Byte.to_N b) with
        | SChar c => cons_ok c (utf8_decode_from h None rest)
        | SLead p => utf8_decode_from h (Some p) rest
        | SInvalid => on_error h (utf8_decode_from h None rest)
        end in
      match st with
      | None => fresh
      | Some p =>
          if accepts p (Byte.to_N b) then
            match p_need p with
            | S (S n) =>
                utf8_decode_from h
                  (Some (MkPending (absorb p (Byte.to_N b)) (S n) 0x80 0xBF))
                  rest
            | _ => cons_ok (absorb p (Byte.to_N b))
                     (utf8_decode_from h None rest)
            end
          else on_error h fresh
      end
  end.

Definition utf8_decode (h : error_handler) (bs : bytes) : result pystr :=
  utf8_decode_from h None bs.

(** ** Text files: universal newlines, line iteration, [rstrip] *)

(** Text mode with the default [newline=None]: every ["\r\n"] and every
    lone ["\r"] is delivered as ["\n"]. *)
Fixpoint translate_newlines (s : pystr) : pystr :=
  match s with
  | [] => []
  | c :: rest =>
      if (c =? CR)%N then
        LF :: match rest with
              | c' :: rest' =>
                  if (c' =? LF)%N then translate_newlines rest'
                  else translate_newlines rest
              | [] => []
              end
      else c :: translate_newlines rest
  end.

(** [for line in f]: the text cut after every ["\n"]; each line keeps its
    terminator, the last line may lack one. *)
Fixpoint readlines (s : pystr) : list pystr :=
  match s with
  | [] => []
  | c :: rest =>
      if (c =? LF)%N then [LF] :: readlines rest
      else
        match readlines rest with
        | [] => [[c]]
        | l :: ls => (c :: l) :: ls
        end
  end.

Definition is_eol (c : codepoint) : bool := ((c =? LF) || (c =? CR))%N.

(** [line.rstrip('\n\r')] *)
Fixpoint rstrip (s : pystr) : pystr :=
  match s with
  | [] => []
  | c :: rest =>
      match rstrip rest with
      | [] => if is_eol c then [] else [c]
      | r => c :: r
      end
  end.

(** [m.endswith('/')] *)
Fixpoint endswith_slash (m : pystr) : bool :=
  match m with
  | [] => false
  | [c] => (c =? SLASH)%N
  | _ :: rest => endswith_slash rest
  end.

(** ** The world outside the script *)

(** An opened archive member [fh]: how [fh.read(1)] and the closing of
    [fh] end ([None]: without an exception). *)
Record member_handle : Type := MkMember {
  fh_read : option exn;
  fh_close : option exn
}.

(** What [zipfile.ZipFile] gives access to: the result of [z.namelist()]
    and of [z.open(member, 'r', pwd=...)]. *)
Record archive : Type := MkArchive {
  a_namelist : result (list pystr);
  a_open : pystr -> bytes -> result member_handle
}.

(** The reader of [pyzipper.AESZipFile(zip_path, 'r')]. *)
Record aes_archive : Type := MkAes {
  z2_open : pystr -> bytes -> result member_handle;
  z2_close : option exn
}.

Record pyzipper : Type := MkPyzipper {
  pz_AESZipFile : string -> result aes_archive
}.

(** The bytes a text file delivers and, when reading fails before the end
    of the file is reached, the exception raised after them. *)
Record text_source : Type := MkText {
  t_bytes : bytes;
  t_read_error : option exn
}.

(** An existing path: what [ZipFile(path)] and [open(path, 'r', ...)]
    return for it. *)
Record node : Type := MkNode {
  n_zip : result archive;
  n_text : result text_source
}.

(** [stdout_encodes c]: the encoding of [sys.stdout] has the code point
    [c] (every code point with UTF-8, those below 128 with ASCII). *)
Record world : Type := MkWorld {
  fs : string -> option node;
  import_pyzipper : result pyzipper;
  clock : nat -> Z;
  stdout_encodes : codepoint -> bool
}.

(** Standard output can encode the string. *)
Definition printable (w : world) (s : pystr) : bool :=
  forallb (stdout_encodes w) s.

Definition not_found (path : string) : exn :=
  MkExn FileNotFoundError ("No such file or directory: " ++ path).

(** ** Observable effects *)

Inductive handle : Type :=
  | HArchive
  | HMember
  | HAesArchive
  | HAesMember
  | HWordlist.

(** The calls that reach outside the script, in the order they are made;
    the two probe functions also record that they were entered. *)
Inductive event : Type :=
  | EvTime
  | EvZipFile (path : string)
  | EvNamelist
  | EvImportPyzipper
  | EvOpenText (path : string)
  | EvReadLine (line : pystr)
  | EvTryZipfileOpen (member : pystr) (pwd : bytes)
  | EvTryPyzipper (zip_path : string) (member : pystr) (pwd : bytes)
  | EvOpenMember (member : pystr) (pwd : bytes)
  | EvAESZipFile (path : string)
  | EvAESOpenMember (member : pystr) (pwd : bytes)
  | EvRead (h : handle)
  | EvClose (h : handle).

(** The lines written to [sys.stderr], one constructor per [print] of the
    source (line numbers of [brute_zip.py]). *)
Inductive message : Type :=
  | ErrZipNotFound (zip_path : string)            (* l. 75 *)
  | ErrBadZip (zip_path : string)                 (* l. 78 *)
  | ErrZipOpen (e : exn)                          (* l. 81 *)
  | ErrNamelist (e : exn)                         (* l. 88 *)
  | ErrNoMembers                                  (* l. 92 *)
  | DbgTargetMember (target_member : pystr)       (* l. 97 *)
  | DbgPyzipperFound                              (* l. 105 *)
  | DbgPyzipperMissing                            (* l. 108 *)
  | DbgProgress (total_tried : nat) (now start : Z) (* l. 140 *)
  | ErrWordlistNotFound (wordlist_path : string)  (* l. 146 *)
  | ErrWordlist (e : exn).                        (* l. 149 *)

Definition is_error_message (m : message) : bool :=
  match m with
  | ErrZipNotFound _ | ErrBadZip _ | ErrZipOpen _ | ErrNamelist _
  | ErrNoMembers | ErrWordlistNotFound _ | ErrWordlist _ => true
  | DbgTargetMember _ | DbgPyzipperFound | DbgPyzipperMissing
  | DbgProgress _ _ _ => false
  end.

Record state : Type := MkState {
  stdout : pystr;
  stderr : list message;
  trace : list event;
  ticks : nat
}.

Definition init_state : state := MkState [] [] [] 0.

(** ** The monad of the script: state that survives exceptions *)

Definition M (A : Type) : Type := state -> result A * state.

Definition ret {A} (a : A) : M A := fun st => (Ok a, st).

Definition bind {A B} (m : M A) (k : A -> M B) : M B :=
  fun st =>
    match m st with
    | (Ok a, st1) => k a st1
    | (Raise e, st1) => (Raise e, st1)
    end.

Definition raise {A} (e : exn) : M A := fun st => (Raise e, st).

(** [try: m except Exception as e: handler e] *)
Definition catch {A} (m : M A) (handler : exn -> M A) : M A :=
  fun st =>
    match m st with
    | (Ok a, st1) => (Ok a, st1)
    | (Raise e, st1) => handler e st1
    end.

(** The outcome of a [try] body as a value, for handlers that [return]. *)
Definition attempt {A} (m : M A) : M (result A) :=
  fun st => let (r, st1) := m st in (Ok r, st1).

Definition lift {A} (r : result A) : M A := fun st => (r, st).

Declare Scope monad_scope.
Delimit Scope monad_scope with monad.
Notation "x <- c ;; k" := (bind c (fun x => k))
  (at level 61, c at next level, right associativity) : monad_scope.
Notation "c ;; k" := (bind c (fun _ => k))
  (at level 61, right associativity) : monad_scope.
Local Open Scope monad_scope.

Definition log (evs : list event) : M unit :=
  fun st => (Ok tt, MkState (stdout st) (stderr st) (trace st ++ evs) (ticks st)).

(** [print(..., file=sys.stderr)] *)
Definition print_err (m : message) : M unit :=
  fun st =>
    (Ok tt, MkState (stdout st) (stderr st ++ [m]) (trace st) (ticks st)).

Definition when (b : bool) (m : M unit) : M unit :=
  if b then m else ret tt.

(** [with ... as fh: body]: the handle is closed when the block is left,
    normally or by an exception; an exception of the closing replaces the
    outcome of the body. *)
Definition with_handle {A} (h : handle) (closing : option exn) (body : M A)
    : M A :=
  fun st =>
    let (r, st1) := body st in
    let (_, st2) := log [EvClose h] st1 in
    match closing with
    | Some e => (Raise e, st2)
    | None => (r, st2)
    end.

(** ** Generators *)

(** A generator unfolded: each step carries the events that happen when
    the consumer advances to it.  A generator suspended at a [yield] is
    inside the [with] and [try] blocks around it; [cleanup] are the events
    of leaving them, which happen when the generator is finalised there
    instead of being resumed. *)
Inductive generator : Type :=
  | GYield (pre : list event) (value : pystr) (cleanup : list event)
      (rest : generator)
  | GReturn (pre : list event)
  | GRaise (pre : list event) (e : exn).

Definition ends_with_lf (l : pystr) : bool :=
  match rev l with
  | c :: _ => (c =? LF)%N
  | [] => false
  end.

(** A final ["\r"] of the data read so far is held back by the newline
    decoder until it is known whether ["\n"] follows. *)
Definition hold_back_cr (s : pystr) : pystr :=
  match rev s with
  | c :: r => if (c =? CR)%N then rev r else s
  | [] => []
  end.

(** The lines [for line in f] delivers for a file opened with
    [encoding='utf-8', errors='ignore'], and how the iteration ends.  When
    a read fails, the lines completed by the bytes read before it are
    delivered first. *)
Definition file_iter (src : text_source) : list pystr * option exn :=
  match utf8_decode Ignore (t_bytes src) with
  | Raise e => ([], Some e)
  | Ok text =>
      match t_read_error src with
      | None => (readlines (translate_newlines text), None)
      | Some e =>
          (filter ends_with_lf
             (readlines (translate_newlines (hold_back_cr text))),
           Some e)
      end
  end.

(** ** The script *)

Section Script.

Variable w : world.

(** [open(path, 'r', encoding='utf-8', errors='ignore')] *)
Definition open_text (path : string) : result text_source :=
  match fs w path with
  | None => Raise (not_found path)
  | Some n => n_text n
  end.

(** [print(s)]: [s] is encoded for [sys.stdout] in one piece before any
    of it is written, so a code point the stream's encoding lacks raises
    [UnicodeEncodeError] and leaves the stream as it was.  The line end is
    in every encoding. *)
Definition print_out (s : pystr) : M unit :=
  fun st =>
    if printable w s then
      (Ok tt,
       MkState (stdout st ++ s ++ [LF]) (stderr st) (trace st) (ticks st))
    else (Raise encode_error, st).

(** The body of the [for line in f] loop of [iter_wordlist]; [pre] are the
    events since the last [yield].  Every [yield] is inside the [with]
    block, whose exit closes the file. *)
Fixpoint lines_gen (pre : list event) (lines : list pystr)
    (tail : option exn) : generator :=
  match lines with
  | [] =>
      match tail with
      | None => GReturn (pre ++ [EvClose HWordlist])
      | Some e => GRaise (pre ++ [EvClose HWordlist]) e
      end
  | line :: more =>
      let s := rstrip line in
      if truthy s then
        GYield (pre ++ [EvReadLine line]) s [EvClose HWordlist]
          (lines_gen [] more tail)
      else lines_gen (pre ++ [EvReadLine line]) more tail
  end.

(** [iter_wordlist(path)].  Nothing runs until the first value is asked
    for; both [except] clauses re-raise what they caught. *)
Definition iter_wordlist (path : string) : generator :=
  match open_text path with
  | Raise e => GRaise [EvOpenText path] e
  | Ok src =>
      let (lines, tail) := file_iter src in
      lines_gen [EvOpenText path] lines tail
  end.

(** [fh.read(1)] *)
Definition read1 (h : handle) (fh : member_handle) : M unit :=
  log [EvRead h] ;;
  match fh_read fh with
  | Some e => raise e
  | None => ret tt
  end.

(** [z.open(member, 'r', pwd=pwd_bytes)] *)
Definition zip_open (z : archive) (member : pystr) (pwd_bytes : bytes)
    : M member_handle :=
  log [EvOpenMember member pwd_bytes] ;;
  lift (a_open z member pwd_bytes).

Definition try_zipfile_open (z : archive) (member : pystr)
    (pwd_bytes : bytes) : M bool :=
  log [EvTryZipfileOpen member pwd_bytes] ;;
  catch
    (fh <- zip_open z member pwd_bytes ;;
     with_handle HMember (fh_close fh) (read1 HMember fh) ;;
     ret true)
    (fun e =>
       if isinstance e RuntimeError then ret false
       else ret false).

(** [pyzipper_module.AESZipFile(zip_path, 'r')] *)
Definition AESZipFile (pyzipper_module : pyzipper) (zip_path : string)
    : M aes_archive :=
  log [EvAESZipFile zip_path] ;;
  lift (pz_AESZipFile pyzipper_module zip_path).

(** [z2.open(member, pwd=pwd_bytes)] *)
Definition aes_open (z2 : aes_archive) (member : pystr) (pwd_bytes : bytes)
    : M member_handle :=
  log [EvAESOpenMember member pwd_bytes] ;;
  lift (z2_open z2 member pwd_bytes).

Definition try_pyzipper (zip_path : string) (member : pystr)
    (pwd_bytes : bytes) (pyzipper_module : pyzipper) : M bool :=
  log [EvTryPyzipper zip_path member pwd_bytes] ;;
  catch
    (z2 <- AESZipFile pyzipper_module zip_path ;;
     with_handle HAesArchive (z2_close z2)
       (fh <- aes_open z2 member pwd_bytes ;;
        with_handle HAesMember (fh_close fh) (read1 HAesMember fh)) ;;
     ret true)
    (fun e =>
       if isinstance e RuntimeError then ret false
       else ret false).

(** [time.time()] *)
Definition time_time : M Z :=
  fun st =>
    (Ok (clock w (ticks st)),
     MkState (stdout st) (stderr st) (trace st ++ [EvTime]) (S (ticks st))).

(** [ZipFile(zip_path)] *)
Definition ZipFile (zip_path : string) : M archive :=
  log [EvZipFile zip_path] ;;
  match fs w zip_path with
  | None => raise (not_found zip_path)
  | Some n => lift (n_zip n)
  end.

(** [[m for m in z.namelist() if not m.endswith('/')]] *)
Definition list_members (z : archive) : M (list pystr) :=
  log [EvNamelist] ;;
  names <- lift (a_namelist z) ;;
  ret (filter (fun m => negb (endswith_slash m)) names).

(** [import pyzipper as _pz] *)
Definition import_pz : M pyzipper :=
  log [EvImportPyzipper] ;;
  lift (import_pyzipper w).

Section Scan.

Variables (zip_path : string) (verbose : bool) (start : Z).
Variables (z : archive) (target_member : pystr).
Variable pyzipper_module : option pyzipper.

(** The loop [for enc in ('utf-8', 'latin-1')], lines 120-135, for one
    candidate.  [Some 0]: [find_password] has printed the candidate and
    returned 0; [None]: the loop ran to its end. *)
Fixpoint try_encodings (encs : list codec) (candidate : pystr)
    : M (option Z) :=
  match encs with
  | [] => ret None
  | enc :: more =>
      match str_encode enc candidate with
      | Raise _ => try_encodings more candidate
      | Ok pwd_bytes =>
          ok <- try_zipfile_open z target_member pwd_bytes ;;
          if ok then
            print_out candidate ;;
            ret (Some 0%Z)
          else
            match pyzipper_module with
            | Some pz =>
                ok2 <- try_pyzipper zip_path target_member pwd_bytes pz ;;
                if ok2 then
                  print_out candidate ;;
                  ret (Some 0%Z)
                else try_encodings more candidate
            | None => try_encodings more candidate
            end
      end
  end.

(** The loop [for candidate in iter_wordlist(wordlist_path)], lines
    113-143, with the [return 1] that follows it.  The loop holds the only
    reference to the generator: when a [return] or an exception of the
    body leaves the loop, the suspended generator is finalised and its
    [cleanup] runs before anything else does. *)
Fixpoint scan (g : generator) (total_tried : nat) : M Z :=
  match g with
  | GReturn pre => log pre ;; ret 1%Z
  | GRaise pre e => log pre ;; raise e
  | GYield pre candidate cleanup rest =>
      log pre ;;
      let total_tried := S total_tried in
      if negb (truthy candidate) then scan rest total_tried
      else
        r <- attempt (try_encodings [UTF8; Latin1] candidate) ;;
        match r with
        | Raise e => log cleanup ;; raise e
        | Ok (Some rc) => log cleanup ;; ret rc
        | Ok None =>
            when (verbose && (total_tried mod 100 =? 0))
              (now <- time_time ;;
               print_err (DbgProgress total_tried now start)) ;;
            scan rest total_tried
        end
  end.

End Scan.

(** The end of the lifetime of the local [z] of [find_password].  The
    source never closes the archive; [z] holds the only reference to the
    [ZipFile] object (the probes borrow it and keep nothing), so the
    object is finalised when the frame of [find_password] is left, and
    [ZipFile.__del__] calls [close()]. *)
Definition until_frame_exit {A} (h : handle) (body : M A) : M A :=
  fun st =>
    let (r, st1) := body st in
    let (_, st2) := log [EvClose h] st1 in
    (r, st2).

Definition find_password (zip_path wordlist_path : string) (verbose : bool)
    : M Z :=
  start <- time_time ;;
  rz <- attempt (ZipFile zip_path) ;;
  match rz with
  | Raise e =>
      if isinstance e FileNotFoundError then
        print_err (ErrZipNotFound zip_path) ;; ret 2%Z
      else if isinstance e BadZipFile then
        print_err (ErrBadZip zip_path) ;; ret 2%Z
      else
        print_err (ErrZipOpen e) ;; ret 2%Z
  | Ok z =>
      until_frame_exit HArchive
        (rm <- attempt (list_members z) ;;
         match rm with
         | Raise e => print_err (ErrNamelist e) ;; ret 2%Z
         | Ok [] => print_err ErrNoMembers ;; ret 2%Z
         | Ok (target_member :: _) =>
             when verbose (print_err (DbgTargetMember target_member)) ;;
             rp <- attempt import_pz ;;
             pyzipper_module <-
               match rp with
               | Ok _pz =>
                   when verbose (print_err DbgPyzipperFound) ;;
                   ret (Some _pz)
               | Raise _ =>
                   when verbose (print_err DbgPyzipperMissing) ;;
                   ret None
               end ;;
             rs <- attempt
                     (scan zip_path verbose start z target_member
                        pyzipper_module (iter_wordlist wordlist_path) 0) ;;
             match rs with
             | Ok rc => ret rc
             | Raise e =>
                 if isinstance e FileNotFoundError then
                   print_err (ErrWordlistNotFound wordlist_path) ;; ret 2%Z
                 else
                   print_err (ErrWordlist e) ;; ret 2%Z
             end
         end)
  end.

End Script.

(** ** Reading a run

    Functions over the recorded effects and the plan the search is
    compared with. *)

(** The state [st] after more output, messages, events and clock reads. *)
Definition extend (st : state) (out : pystr) (err : list message)
    (evs : list event) (n : nat) : state :=
  MkState (stdout st ++ out) (stderr st ++ err) (trace st ++ evs)
          (ticks st + n).

Inductive capability : Type := Primary | Secondary.

(** The probes entered, in order: which capability, with which bytes. *)
Fixpoint probes (tr : list event) : list (capability * bytes) :=
  match tr with
  | [] => []
  | EvTryZipfileOpen _ pwd :: more => (Primary, pwd) :: probes more
  | EvTryPyzipper _ _ pwd :: more => (Secondary, pwd) :: probes more
  | _ :: more => probes more
  end.

(** The lines the wordlist file has delivered. *)
Fixpoint lines_read (tr : list event) : list pystr :=
  match tr with
  | [] => []
  | EvReadLine line :: more => line :: lines_read more
  | _ :: more => lines_read more
  end.

(** The candidates among delivered lines. *)
Definition candidates_of (lines : list pystr) : list pystr :=
  filter truthy (map rstrip lines).

Definition candidates_read (tr : list event) : list pystr :=
  candidates_of (lines_read tr).

(** Events of a probe of [member]: nothing but the probe's own calls, and
    no other member is touched. *)
Definition probe_event (member : pystr) (ev : event) : bool :=
  match ev with
  | EvTryZipfileOpen m _ | EvTryPyzipper _ m _ | EvOpenMember m _
  | EvAESOpenMember m _ => pystr_eqb m member
  | EvAESZipFile _ | EvRead _ | EvClose HMember | EvClose HAesArchive
  | EvClose HAesMember => true
  | _ => false
  end.

(** Events of the scanning loop. *)
Definition scan_event (member : pystr) (ev : event) : bool :=
  match ev with
  | EvReadLine _ | EvTime | EvClose HWordlist => true
  | _ => probe_event member ev
  end.

(** The elements of [l] up to and including the first that satisfies [p]. *)
Fixpoint upto {A : Type} (p : A -> bool) (l : list A) : list A :=
  match l with
  | [] => []
  | a :: more => a :: (if p a then [] else upto p more)
  end.

Section Plan.

Variables (zip_path : string) (z : archive) (target_member : pystr).
Variable pyzipper_module : option pyzipper.

(** A probe of the built-in reader succeeds when the member opens, one
    byte is read and the member handle closes, all without exception. *)
Definition primary_ok (pwd : bytes) : bool :=
  match a_open z target_member pwd with
  | Ok fh =>
      match fh_read fh, fh_close fh with
      | None, None => true
      | _, _ => false
      end
  | Raise _ => false
  end.

Definition secondary_ok (pz : pyzipper) (pwd : bytes) : bool :=
  match pz_AESZipFile pz zip_path with
  | Ok z2 =>
      match z2_open z2 target_member pwd with
      | Ok fh =>
          match fh_read fh, fh_close fh, z2_close z2 with
          | None, None, None => true
          | _, _, _ => false
          end
      | Raise _ => false
      end
  | Raise _ => false
  end.

Definition verdict (a : capability * bytes) : bool :=
  match fst a, pyzipper_module with
  | Primary, _ => primary_ok (snd a)
  | Secondary, Some pz => secondary_ok pz (snd a)
  | Secondary, None => false
  end.

(** The capabilities at hand, primary first. *)
Definition capabilities : list capability :=
  Primary :: match pyzipper_module with
             | Some _ => [Secondary]
             | None => []
             end.

(** Every (encoding, capability) combination of a candidate in the fixed
    priority order; an encoding that cannot represent the candidate
    contributes nothing. *)
Definition plan_of (encs : list codec) (candidate : pystr)
    : list (capability * bytes) :=
  flat_map
    (fun enc =>
       match str_encode enc candidate with
       | Ok pwd => map (fun cap => (cap, pwd)) capabilities
       | Raise _ => []
       end)
    encs.

Definition plan : pystr -> list (capability * bytes) :=
  plan_of [UTF8; Latin1].

(** Some combination verifies the candidate. *)
Definition verifies (candidate : pystr) : bool :=
  existsb verdict (plan candidate).

End Plan.

(** The optional capability as the run sees it. *)
Definition capability_of (w : world) : option pyzipper :=
  match import_pyzipper w with
  | Ok pz => Some pz
  | Raise _ => None
  end.

(** The first entry that is not a directory. *)
Definition first_file (names : list pystr) : option pystr :=
  find (fun m => negb (endswith_slash m)) names.

(** The candidates a wordlist file holds. *)
Definition wordlist_candidates (src : text_source) : list pystr :=
  candidates_of (fst (file_iter src)).

(** The terminal result of a run, as the specification names it. *)
Inductive outcome : Type :=
  | Found (password : pystr)
  | NotFound
  | Failed (m : message).

Definition exit_code (o : outcome) : Z :=
  match o with
  | Found _ => 0%Z
  | NotFound => 1%Z
  | Failed _ => 2%Z
  end.

(** What standard output holds at the end of a run. *)
Definition output (o : outcome) : pystr :=
  match o with
  | Found password => password ++ [LF]
  | NotFound | Failed _ => []
  end.

(** The error lines among the messages of the error stream. *)
Definition errors (err : list message) : list message :=
  filter is_error_message err.

Definition reported (o : outcome) : list message :=
  match o with
  | Failed m => [m]
  | Found _ | NotFound => []
  end.

(** The message of the handlers of lines 74-82. *)
Definition zip_error_message (zip_path : string) (e : exn) : message :=
  if isinstance e FileNotFoundError then ErrZipNotFound zip_path
  else if isinstance e BadZipFile then ErrBadZip zip_path
  else ErrZipOpen e.

(** The message of the handlers of lines 145-150. *)
Definition wordlist_error_message (wordlist_path : string) (e : exn)
    : message :=
  if isinstance e FileNotFoundError then ErrWordlistNotFound wordlist_path
  else ErrWordlist e.

(** The search over the candidates of an opened wordlist.  The first
    candidate that verifies ends it: as the password found when standard
    output takes the candidate, and with the exception of the [print]
    otherwise, which the handler of line 148 reports. *)
Definition search (w : world) (verifies : pystr -> bool)
    (wordlist_path : string) (lines : list pystr) (tail : option exn)
    : outcome :=
  match find verifies (candidates_of lines) with
  | Some c =>
      if printable w c then Found c
      else Failed (wordlist_error_message wordlist_path encode_error)
  | None =>
      match tail with
      | None => NotFound
      | Some e => Failed (wordlist_error_message wordlist_path e)
      end
  end.

(** How far a run gets before the wordlist is touched. *)
Inductive stage : Type :=
  | NoArchive (m : message)
  | NoTarget (m : message)
  | Ready (z : archive) (target : pystr).

Definition prelude (w : world) (zip_path : string) : stage :=
  match fs w zip_path with
  | None => NoArchive (ErrZipNotFound zip_path)
  | Some n =>
      match n_zip n with
      | Raise e => NoArchive (zip_error_message zip_path e)
      | Ok z =>
          match a_namelist z with
          | Raise e => NoTarget (ErrNamelist e)
          | Ok names =>
              match first_file names with
              | None => NoTarget ErrNoMembers
              | Some target => Ready z target
              end
          end
      end
  end.

(** The outcome of a run, read off the world stage by stage. *)
Definition expected (w : world) (zip_path wordlist_path : string) : outcome :=
  match prelude w zip_path with
  | NoArchive m | NoTarget m => Failed m
  | Ready z target =>
      match open_text w wordlist_path with
      | Raise e => Failed (wordlist_error_message wordlist_path e)
      | Ok src =>
          search w (verifies zip_path z target (capability_of w))
            wordlist_path (fst (file_iter src)) (snd (file_iter src))
      end
  end.

(** The debug lines of lines 96-108. *)
Definition prelude_debug (w : world) (verbose : bool) (target : pystr)
    : list message :=
  if verbose then
    [DbgTargetMember target;
     match import_pyzipper w with
     | Ok _ => DbgPyzipperFound
     | Raise _ => DbgPyzipperMissing
     end]
  else [].

(** The archive at [zip_path] opens and [target] is its first entry that
    is not a directory. *)
Definition archive_ready (w : world) (zip_path : string) (z : archive)
    (target : pystr) : Prop :=
  exists n names,
    fs w zip_path = Some n /\ n_zip n = Ok z /\
    a_namelist z = Ok names /\ first_file names = Some target.

(** The values a generator yields, to its end. *)
Fixpoint gen_values (g : generator) : list pystr :=
  match g with
  | GYield _ v _ rest => v :: gen_values rest
  | GReturn _ | GRaise _ _ => []
  end.

(** How a generator ends: [None] by returning. *)
Fixpoint gen_end (g : generator) : option exn :=
  match g with
  | GYield _ _ _ rest => gen_end rest
  | GReturn _ => None
  | GRaise _ e => Some e
  end.

(** The members the probes of a run were pointed at. *)
Fixpoint probed_members (tr : list event) : list pystr :=
  match tr with
  | [] => []
  | EvTryZipfileOpen m _ :: more
  | EvTryPyzipper _ m _ :: more
  | EvOpenMember m _ :: more
  | EvAESOpenMember m _ :: more => m :: probed_members more
  | _ :: more => probed_members more
  end.

(** The text files a run opened. *)
Fixpoint texts_opened (tr : list event) : list string :=
  match tr with
  | [] => []
  | EvOpenText path :: more => path :: texts_opened more
  | _ :: more => texts_opened more
  end.

(** Calls on the archive handle itself: opening it, closing it. *)
Fixpoint archives_opened (tr : list event) : list string :=
  match tr with
  | [] => []
  | EvZipFile path :: more => path :: archives_opened more
  | _ :: more => archives_opened more
  end.

Definition closes_archive (ev : event) : bool :=
  match ev with
  | EvClose HArchive => true
  | _ => false
  end.

(** The structural errors of a run and the line each is reported with. *)
Inductive structural_error (w : world) (zip_path wordlist_path : string)
    : message -> Prop :=
  | ArchiveNotFound :
      fs w zip_path = None ->
      structural_error w zip_path wordlist_path (ErrZipNotFound zip_path)
  | ArchiveNotZip n e :
      fs w zip_path = Some n -> n_zip n = Raise e ->
      exn_cls e = BadZipFile ->
      structural_error w zip_path wordlist_path (ErrBadZip zip_path)
  | ArchiveUnreadable n e :
      fs w zip_path = Some n -> n_zip n = Raise e ->
      structural_error w zip_path wordlist_path
        (zip_error_message zip_path e)
  | ListingFailed n z e :
      fs w zip_path = Some n -> n_zip n = Ok z ->
      a_namelist z = Raise e ->
      structural_error w zip_path wordlist_path (ErrNamelist e)
  | NoFileEntry n z names :
      fs w zip_path = Some n -> n_zip n = Ok z ->
      a_namelist z = Ok names ->
      Forall (fun m => endswith_slash m = true) names ->
      structural_error w zip_path wordlist_path ErrNoMembers
  | WordlistNotFound z target :
      archive_ready w zip_path z target ->
      fs w wordlist_path = None ->
      structural_error w zip_path wordlist_path
        (ErrWordlistNotFound wordlist_path)
  | WordlistUnopened z target e :
      archive_ready w zip_path z target ->
      open_text w wordlist_path = Raise e ->
      structural_error w zip_path wordlist_path
        (wordlist_error_message wordlist_path e)
  | WordlistReadFailed z target src e :
      archive_ready w zip_path z target ->
      open_text w wordlist_path = Ok src ->
      t_read_error src = Some e ->
      (forall c, In c (wordlist_candidates src) ->
                 verifies zip_path z target (capability_of w) c = false) ->
      structural_error w zip_path wordlist_path
        (wordlist_error_message wordlist_path e).

(** [kept] is [l] with some elements left out. *)
Inductive subseq {A : Type} : list A -> list A -> Prop :=
  | subseq_nil : subseq [] []
  | subseq_keep a kept l : subseq kept l -> subseq (a :: kept) (a :: l)
  | subseq_drop a kept l : subseq kept l -> subseq kept (a :: l).

(** A match that cannot be printed: the archive is ready, the wordlist
    opens and the first of its candidates that verifies holds a code point
    outside the encoding of standard output. *)
Definition match_not_printable (w : world) (zip_path wordlist_path : string)
    (c : pystr) : Prop :=
  exists z target src,
    archive_ready w zip_path z target
    /\ open_text w wordlist_path = Ok src
    /\ find (verifies zip_path z target (capability_of w))
         (wordlist_candidates src) = Some c
    /\ printable w c = false.

(** ** The rest of the script: progress lines, [main] *)

(** The candidates that fail before the first that verifies, or before
    the end of the list. *)
Fixpoint failures (V : pystr -> bool) (cands : list pystr) : nat :=
  match cands with
  | [] => 0
  | c :: more => if V c then 0 else S (failures V more)
  end.

(** The progress lines written while [failed] candidates fail in a row,
    [tried] candidates having been counted and the clock read [ticks]
    times before: one line each time the count reaches a multiple of
    100. *)
Definition progress_from (w : world) (start : Z) (tried ticks failed : nat)
    : list message :=
  map (fun i => DbgProgress (100 * (tried / 100 + 1 + i))
                  (clock w (ticks + i)) start)
      (seq 0 ((tried + failed) / 100 - tried / 100)).

Definition closes_wordlist (ev : event) : bool :=
  match ev with
  | EvClose HWordlist => true
  | _ => false
  end.

(** The options [argparse] found on the command line: the value given
    with [-z]/[--zip], the value given with [-w]/[--wordlist], and whether
    [-v]/[--verbose] occurred.  Command lines that [argparse] rejects for
    other reasons (an unknown argument, [-h]) are not in this type. *)
Record command_line : Type := MkCli {
  cli_zip : option string;
  cli_wordlist : option string;
  cli_verbose : bool
}.

(** [ap.parse_args()] for the three [add_argument] calls of [main]:
    [--zip] is required, [--wordlist] defaults to ['TOP500.txt'],
    [--verbose] is a flag.  [None]: [argparse] reports the missing option
    and exits with status 2. *)
Definition parse_args (c : command_line) : option (string * string * bool) :=
  match cli_zip c with
  | None => None
  | Some zip =>
      Some (zip,
            match cli_wordlist c with
            | Some wordlist => wordlist
            | None => "TOP500.txt"%string
            end,
            cli_verbose c)
  end.

(** How the process ends: its exit status and what the script itself
    wrote and called. *)
Record process_end : Type := MkEnd {
  exit_status : Z;
  final : state
}.

(** [main()]: [sys.exit(rc)] ends the process with the value
    [find_password] returned.  [find_password] lets no exception out of
    the ones modelled; should one escape, the interpreter prints the
    traceback and exits with status 1. *)
Definition main (w : world) (c : command_line) : process_end :=
  match parse_args c with
  | None => MkEnd 2 init_state
  | Some (zip, wordlist, verbose) =>
      match find_password w zip wordlist verbose init_state with
      | (Ok rc, st) => MkEnd rc st
      | (Raise _, st) => MkEnd 1 st
      end
  end.

(** ** Concrete worlds for the examples *)

Module Examples.

Local Open Scope string_scope.

Definition bytes_eqb (a b : bytes) : bool :=
  if list_eq_dec Byte.byte_eq_dec a b then true else false.

Definition bad_password : exn := MkExn RuntimeError "Bad password for file".

Definition good_handle : member_handle := MkMember None None.

(** An archive with the given entries whose members all open with
    [password] and with nothing else. *)
Definition protected_archive (names : list pystr) (password : bytes)
    : archive :=
  MkArchive (Ok names)
    (fun _ pwd => if bytes_eqb pwd password then Ok good_handle
                  else Raise bad_password).

Definition zip_node (names : list pystr) (password : bytes) : node :=
  MkNode (Ok (protected_archive names password))
         (Ok (MkText [] None)).

Definition text_node (content : string) : node :=
  MkNode (Raise (MkExn BadZipFile "File is not a zip file"))
         (Ok (MkText (list_byte_of_string content) None)).

Definition no_pyzipper : result pyzipper :=
  Raise (MkExn OtherException "No module named 'pyzipper'").

Definition disk (files : list (string * node)) (path : string)
    : option node :=
  match find (fun f => String.eqb (fst f) path) files with
  | Some f => Some (snd f)
  | None => None
  end.

Definition nl : string := String (ascii_of_nat 10) EmptyString.

(** Standard output encoded in UTF-8, and in ASCII (as it is with
    [PYTHONIOENCODING=ascii]). *)
Definition utf8_stdout : codepoint -> bool := fun _ => true.
Definition ascii_stdout : codepoint -> bool := fun c => (c <? 128)%N.

(** [secret.zip] is protected with the password [123456]. *)
Definition secret_zip : node :=
  zip_node [py "docs/"; py "docs/readme.txt"] (list_byte_of_string "123456").

Definition w1 : world :=
  MkWorld
    (disk [("secret.zip", secret_zip);
           ("top.txt", text_node ("admin" ++ nl ++ "123456" ++ nl ++ "password" ++ nl));
           ("short.txt", text_node ("admin" ++ nl ++ "password" ++ nl))])
    no_pyzipper
    (fun n => Z.of_nat n)
    utf8_stdout.

Definition secret_archive : archive :=
  protected_archive [py "docs/"; py "docs/readme.txt"]
    (list_byte_of_string "123456").

Definition readme : pystr := py "docs/readme.txt".

Definition top_txt : text_source :=
  MkText
    (list_byte_of_string
       ("admin" ++ nl ++ "123456" ++ nl ++ "password" ++ nl))
    None.

Definition short_txt : text_source :=
  MkText (list_byte_of_string ("admin" ++ nl ++ "password" ++ nl)) None.


(** An archive whose password was typed in Latin-1: the one byte [0xE9]
    of the letter e with acute accent, U+00E9. *)
Definition e_acute : pystr := [233%N].

Definition latin_archive : archive :=
  protected_archive [py "a.txt"] [xe9].

(** An archive only pyzipper can read: the built-in reader refuses the
    member whatever the password. *)
Definition unsupported : exn :=
  MkExn OtherException "That compression method is not supported".

Definition aes_only_archive : archive :=
  MkArchive (Ok [py "vault.bin"]) (fun _ _ => Raise unsupported).

Definition aes_reader (password : bytes) : pyzipper :=
  MkPyzipper
    (fun _ =>
       Ok (MkAes
             (fun _ pwd => if bytes_eqb pwd password then Ok good_handle
                           else Raise bad_password)
             None)).

Definition w_aes : world :=
  MkWorld
    (disk [("vault.zip",
            MkNode (Ok aes_only_archive) (Ok (MkText [] None)));
           ("top.txt",
            text_node ("admin" ++ nl ++ "123456" ++ nl ++ "password" ++ nl));
           ("dirs.zip", zip_node [py "a/"; py "a/b/"] []);
           ("crlf.txt",
            MkNode (Raise (MkExn BadZipFile "File is not a zip file"))
                   (Ok (MkText [x61; x0d; x0a; x0d; x0a; xff; x62; x0d; xc3]
                               None)))])
    (Ok (aes_reader (list_byte_of_string "123456")))
    (fun n => Z.of_nat n)
    utf8_stdout.

(** A wordlist of a hundred wrong candidates and then the right one. *)
Fixpoint repeat_lines (n : nat) (line : string) : string :=
  match n with
  | 0 => EmptyString
  | S k => line ++ nl ++ repeat_lines k line
  end.

Definition long_txt : text_source :=
  MkText (list_byte_of_string (repeat_lines 100 "no" ++ "123456" ++ nl)) None.

Definition w_long : world :=
  MkWorld
    (disk [("secret.zip", secret_zip);
           ("long.txt",
            MkNode (Raise (MkExn BadZipFile "File is not a zip file"))
                   (Ok long_txt))])
    no_pyzipper
    (fun n => Z.of_nat n)
    utf8_stdout.

Definition crlf_txt : text_source :=
  MkText [x61; x0d; x0a; x0d; x0a; xff; x62; x0d; xc3] None.

(** A wordlist in UTF-8 with the lines [admin] and the letter U+00E9,
    beside [latin.zip]; the same disk seen through a standard output
    encoded in ASCII and through one encoded in UTF-8. *)
Definition accents_txt : text_source :=
  MkText (list_byte_of_string ("admin" ++ nl) ++ [xc3; xa9; x0a])%list None.

Definition latin_disk : string -> option node :=
  disk [("latin.zip", MkNode (Ok latin_archive) (Ok (MkText [] None)));
        ("accents.txt",
         MkNode (Raise (MkExn BadZipFile "File is not a zip file"))
                (Ok accents_txt))].

Definition w_ascii : world :=
  MkWorld latin_disk no_pyzipper (fun n => Z.of_nat n) ascii_stdout.

Definition w_utf8 : world :=
  MkWorld latin_disk no_pyzipper (fun n => Z.of_nat n) utf8_stdout.

End Examples.

(** * Properties *)

Unset Implicit Arguments.

(** ** State bookkeeping *)

Lemma extend_nil st : extend st [] [] [] 0 = st.
Proof.
  destruct st; unfold extend; simpl.
  now rewrite !app_nil_r, Nat.add_0_r.
Qed.

Lemma extend_extend st o1 e1 t1 n1 o2 e2 t2 n2 :
  extend (extend st o1 e1 t1 n1) o2 e2 t2 n2
  = extend st (o1 ++ o2) (e1 ++ e2) (t1 ++ t2) (n1 + n2).
Proof.
  unfold extend; simpl. now rewrite <- !app_assoc, Nat.add_assoc.
Qed.

Lemma log_run evs st : log evs st = (Ok tt, extend st [] [] evs 0).
Proof.
  unfold log, extend. now rewrite !app_nil_r, Nat.add_0_r.
Qed.

Lemma print_out_run w s st :
  print_out w s st
  = if printable w s then (Ok tt, extend st (s ++ [LF]) [] [] 0)
    else (Raise encode_error, st).
Proof.
  unfold print_out, extend. destruct (printable w s); [|reflexivity].
  now rewrite !app_nil_r, Nat.add_0_r.
Qed.

Lemma print_err_run m st :
  print_err m st = (Ok tt, extend st [] [m] [] 0).
Proof.
  unfold print_err, extend. now rewrite !app_nil_r, Nat.add_0_r.
Qed.

Lemma time_time_run w st :
  time_time w st = (Ok (clock w (ticks st)), extend st [] [] [EvTime] 1).
Proof.
  unfold time_time, extend. now rewrite !app_nil_r, Nat.add_1_r.
Qed.

Lemma probes_app a b : probes (a ++ b) = probes a ++ probes b.
Proof.
  induction a as [|ev a IH]; simpl; [reflexivity|].
  destruct ev; simpl; now rewrite ?IH.
Qed.

Lemma lines_read_app a b : lines_read (a ++ b) = lines_read a ++ lines_read b.
Proof.
  induction a as [|ev a IH]; simpl; [reflexivity|].
  destruct ev; simpl; now rewrite ?IH.
Qed.

Lemma pystr_eqb_refl s : pystr_eqb s s = true.
Proof. unfold pystr_eqb. destruct (list_eq_dec N.eq_dec s s); congruence. Qed.

Lemma lines_read_probe member evs :
  forallb (probe_event member) evs = true -> lines_read evs = [].
Proof.
  induction evs as [|ev evs IH]; simpl; [reflexivity|].
  intros H; apply andb_prop in H as [Hev Hevs].
  destruct ev; simpl in *; try discriminate; auto.
Qed.


Lemma probe_event_scan member ev :
  probe_event member ev = true -> scan_event member ev = true.
Proof.
  destruct ev; simpl; intros H; auto; try discriminate.
  destruct h; auto; discriminate.
Qed.

Lemma forallb_probe_scan member evs :
  forallb (probe_event member) evs = true ->
  forallb (scan_event member) evs = true.
Proof.
  rewrite !forallb_forall. intros H ev Hin. apply probe_event_scan; auto.
Qed.

(** ** The two probes *)

Ltac step_run :=
  repeat (rewrite ?log_run, ?print_err_run, ?time_time_run, ?extend_extend;
          cbn [fst snd app Nat.add]).

Ltac split_handlers :=
  repeat match goal with
         | |- context [if isinstance ?e ?c then _ else _] =>
             destruct (isinstance e c)
         end.

Ltac close_run :=
  eexists; split; [reflexivity | split; [reflexivity|]];
  cbn; rewrite ?pystr_eqb_refl; reflexivity.

(** The events of a probe of the built-in reader. *)
Lemma try_zipfile_open_run z member pwd st :
  exists evs,
    try_zipfile_open z member pwd st
    = (Ok (primary_ok z member pwd), extend st [] [] evs 0)
    /\ probes evs = [(Primary, pwd)]
    /\ forallb (probe_event member) evs = true.
Proof.
  unfold try_zipfile_open, primary_ok, zip_open, read1, bind, catch,
    with_handle, lift, ret, raise.
  step_run.
  destruct (a_open z member pwd) as [fh|e]; step_run.
  - destruct (fh_read fh) as [e1|], (fh_close fh) as [e2|];
      step_run; split_handlers; close_run.
  - split_handlers; close_run.
Qed.

Lemma try_pyzipper_run zip_path member pwd pz st :
  exists evs,
    try_pyzipper zip_path member pwd pz st
    = (Ok (secondary_ok zip_path member pz pwd), extend st [] [] evs 0)
    /\ probes evs = [(Secondary, pwd)]
    /\ forallb (probe_event member) evs = true.
Proof.
  unfold try_pyzipper, secondary_ok, AESZipFile, aes_open, read1, bind,
    catch, with_handle, lift, ret, raise.
  step_run.
  destruct (pz_AESZipFile pz zip_path) as [z2|e]; step_run.
  - destruct (z2_open z2 member pwd) as [fh|e]; step_run.
    + destruct (fh_read fh) as [e1|], (fh_close fh) as [e2|],
        (z2_close z2) as [e3|];
        step_run; split_handlers; close_run.
    + destruct (z2_close z2) as [e3|];
        step_run; split_handlers; close_run.
  - split_handlers; close_run.
Qed.

(** ** The encodings of one candidate *)

Lemma verdict_primary zip_path z member pz pwd :
  verdict zip_path z member pz (Primary, pwd) = primary_ok z member pwd.
Proof. reflexivity. Qed.

Lemma verdict_secondary zip_path z member pz pwd :
  verdict zip_path z member (Some pz) (Secondary, pwd)
  = secondary_ok zip_path member pz pwd.
Proof. reflexivity. Qed.

Lemma plan_of_cons pz enc more c :
  plan_of pz (enc :: more) c
  = match str_encode enc c with
    | Ok pwd => map (fun cap => (cap, pwd)) (capabilities pz)
    | Raise _ => []
    end ++ plan_of pz more c.
Proof. reflexivity. Qed.

(** The inner loop stops with the first combination of its plan that
    verifies, having entered the probes of the plan in order; only then it
    prints, the candidate alone, and returns 0, unless the [print] raises.
    Without such a combination it runs to its end. *)
Lemma try_encodings_run w zip_path z member pz encs c st :
  let found := existsb (verdict zip_path z member pz) (plan_of pz encs c) in
  exists evs,
    try_encodings w zip_path z member pz encs c st
    = (if found then
         if printable w c then Ok (Some 0%Z) else Raise encode_error
       else Ok None,
       extend st (if found && printable w c then c ++ [LF] else []) []
         evs 0)
    /\ probes evs = upto (verdict zip_path z member pz) (plan_of pz encs c)
    /\ forallb (probe_event member) evs = true.
Proof.
  cbv zeta. revert st. induction encs as [|enc more IH]; intros st.
  - exists []. simpl. rewrite extend_nil. auto.
  - rewrite plan_of_cons. cbn [try_encodings].
    destruct (str_encode enc c) as [pwd|e]; [|apply IH].
    unfold bind.
    destruct (try_zipfile_open_run z member pwd st) as (evs1 & E1 & P1 & F1).
    rewrite E1.
    destruct pz as [pz|]; cbn [capabilities map app existsb upto];
      rewrite verdict_primary;
      destruct (primary_ok z member pwd) eqn:Hp; cbn [orb].
    + rewrite print_out_run.
      destruct (printable w c); step_run; unfold ret; exists evs1;
        rewrite ?app_nil_r, ?extend_extend, ?app_nil_r; auto.
    + destruct (try_pyzipper_run zip_path member pwd pz
                  (extend st [] [] evs1 0)) as (evs2 & E2 & P2 & F2).
      rewrite E2, verdict_secondary.
      destruct (secondary_ok zip_path member pz pwd) eqn:Hs; cbn [orb].
      * rewrite print_out_run.
        destruct (printable w c); step_run; unfold ret; exists (evs1 ++ evs2);
          rewrite probes_app, P1, P2, forallb_app, F1, F2, ?app_nil_r; auto.
      * destruct (IH (extend (extend st [] [] evs1 0) [] [] evs2 0))
          as (evs3 & E3 & P3 & F3).
        rewrite E3. step_run.
        exists (evs1 ++ evs2 ++ evs3).
        rewrite !probes_app, P1, P2, P3, !forallb_app, F1, F2, F3,
          ?app_nil_r.
        auto.
    + rewrite print_out_run.
      destruct (printable w c); step_run; unfold ret; exists evs1;
        rewrite ?app_nil_r, ?extend_extend, ?app_nil_r; auto.
    + destruct (IH (extend st [] [] evs1 0)) as (evs3 & E3 & P3 & F3).
      rewrite E3. step_run.
      exists (evs1 ++ evs3).
      rewrite !probes_app, P1, P3, !forallb_app, F1, F3, ?app_nil_r. auto.
Qed.

(** ** The scanning loop *)

Lemma candidates_of_cons line lines :
  candidates_of (line :: lines)
  = if truthy (rstrip line) then rstrip line :: candidates_of lines
    else candidates_of lines.
Proof. reflexivity. Qed.

Lemma upto_none {A} (p : A -> bool) l :
  find p l = None -> upto p l = l.
Proof.
  induction l as [|a l IH]; simpl; [reflexivity|].
  destruct (p a); [discriminate|]. intros H. now rewrite IH.
Qed.

Lemma existsb_false_upto {A} (p : A -> bool) l :
  existsb p l = false -> upto p l = l.
Proof.
  induction l as [|a l IH]; simpl; [reflexivity|].
  destruct (p a); [discriminate|]. simpl. intros H. now rewrite IH.
Qed.

Lemma errors_app a b : errors (a ++ b) = errors a ++ errors b.
Proof. apply filter_app. Qed.

Lemma bind_run {A B} (m : M A) (k : A -> M B) st :
  bind m k st
  = match m st with
    | (Ok a, st1) => k a st1
    | (Raise e, st1) => (Raise e, st1)
    end.
Proof. reflexivity. Qed.

(** The progress report of lines 138-140: a debug line at most. *)
Lemma progress_run w member (b : bool) verbose tried start st :
  exists err evs n,
    when (verbose && b)
      (now <- time_time w ;; print_err (DbgProgress tried now start)) st
    = (Ok tt, extend st [] err evs n)
    /\ errors err = [] /\ (verbose = false -> err = [])
    /\ lines_read evs = [] /\ probes evs = []
    /\ forallb (scan_event member) evs = true
    /\ filter closes_wordlist evs = [].
Proof.
  unfold when. destruct (verbose && b) eqn:Hb.
  - rewrite bind_run, time_time_run, print_err_run, extend_extend.
    eexists [_], [EvTime], 1. repeat split; try reflexivity.
    intros ->. discriminate.
  - exists [], [], 0. unfold ret. rewrite extend_nil.
    repeat split; reflexivity.
Qed.

(** A probe does not touch the wordlist. *)
Lemma probe_events_no_close member evs :
  forallb (probe_event member) evs = true ->
  filter closes_wordlist evs = [].
Proof.
  induction evs as [|ev evs IH]; simpl; [reflexivity|].
  intros H. apply andb_prop in H as [Hev Hevs]. rewrite (IH Hevs).
  destruct ev; simpl in *; try discriminate; auto.
  destruct h; simpl in *; try discriminate; auto.
Qed.

(** The loop over the lines of an opened wordlist: the first candidate
    that verifies ends the run, printed and with 0 when standard output
    takes it and with the exception of the [print] otherwise; without one
    the loop ends as the file does.  Candidates are taken from the file
    one at a time and none is taken after a match.  However the loop is
    left, the file has been closed by then, once, and that is the last
    thing the loop does. *)
Lemma scan_lines_run w zip_path verbose start z member pz lines tail :
  forall pre tried st,
  let V := verifies zip_path z member pz in
  let hit := find V (candidates_of lines) in
  exists err evs n,
    scan w zip_path verbose start z member pz (lines_gen pre lines tail)
      tried st
    = (match hit with
       | Some c => if printable w c then Ok 0%Z else Raise encode_error
       | None => match tail with None => Ok 1%Z | Some e => Raise e end
       end,
       extend st
         (match hit with
          | Some c => if printable w c then c ++ [LF] else []
          | None => []
          end)
         err (pre ++ evs) n)
    /\ errors err = []
    /\ (verbose = false -> err = [])
    /\ candidates_read evs = upto V (candidates_of lines)
    /\ probes evs
       = flat_map (fun c => upto (verdict zip_path z member pz) (plan pz c))
           (upto V (candidates_of lines))
    /\ forallb (scan_event member) evs = true
    /\ exists body, evs = body ++ [EvClose HWordlist]
                    /\ filter closes_wordlist body = [].
Proof.
  cbv zeta. induction lines as [|line more IH]; intros pre tried st.
  - cbn [lines_gen candidates_of map filter find upto flat_map].
    destruct tail as [e|]; cbn [scan]; rewrite bind_run, log_run;
      unfold ret, raise;
      exists [], [EvClose HWordlist], 0; rewrite ?app_nil_r;
      (split; [reflexivity|]); (split; [reflexivity|]);
      (split; [reflexivity|]); (split; [reflexivity|]);
      (split; [reflexivity|]); (split; [reflexivity|]);
      exists []; split; reflexivity.
  - cbn [lines_gen]. rewrite candidates_of_cons.
    destruct (truthy (rstrip line)) eqn:Ht.
    + cbn [scan find upto flat_map]. rewrite Ht. cbn [negb].
      rewrite bind_run, log_run, bind_run. unfold attempt.
      destruct (try_encodings_run w zip_path z member pz [UTF8; Latin1]
                  (rstrip line)
                  (extend st [] [] (pre ++ [EvReadLine line]) 0))
        as (evs1 & E1 & P1 & F1).
      rewrite E1. fold (plan pz (rstrip line)) in *.
      fold (verifies zip_path z member pz (rstrip line)) in *.
      destruct (verifies zip_path z member pz (rstrip line)) eqn:Hv.
      * assert (K1 : filter closes_wordlist evs1 = []).
        { now apply probe_events_no_close with (member := member). }
        cbn [andb].
        exists [], (EvReadLine line :: evs1 ++ [EvClose HWordlist]), 0.
        split.
        { destruct (printable w (rstrip line));
            rewrite bind_run, log_run; unfold ret, raise; step_run;
            rewrite <- !app_assoc, ?app_nil_r; reflexivity. }
        split; [reflexivity|]. split; [reflexivity|].
        split; [|split; [|split]].
        -- unfold candidates_read. cbn [lines_read].
           rewrite lines_read_app, (lines_read_probe _ _ F1).
           cbn [lines_read app]. rewrite candidates_of_cons, Ht.
           reflexivity.
        -- cbn [probes]. rewrite probes_app, P1, ?app_nil_r. reflexivity.
        -- cbn [forallb scan_event]. rewrite forallb_app.
           now rewrite (forallb_probe_scan _ _ F1).
        -- exists (EvReadLine line :: evs1). split; [reflexivity|].
           cbn [filter closes_wordlist]. exact K1.
      * cbn [andb]. rewrite bind_run.
        destruct (progress_run w member (S tried mod 100 =? 0) verbose
                    (S tried) start
                    (extend (extend st [] [] (pre ++ [EvReadLine line]) 0)
                       [] [] evs1 0))
          as (err1 & evs2 & n1 & Ew & D1 & Q1 & L2 & P2 & F2 & K2).
        rewrite Ew.
        match goal with
        | |- context [scan _ _ _ _ _ _ _ _ _ ?s] =>
            destruct (IH [] (S tried) s)
              as (err3 & evs3 & n3 & E3 & D3 & Q3 & C3 & P3 & F3
                  & body & -> & K3)
        end.
        rewrite E3. step_run.
        exists (err1 ++ err3),
          (EvReadLine line :: evs1 ++ evs2 ++ body ++ [EvClose HWordlist]),
          (n1 + n3).
        rewrite <- !app_assoc. cbn [app].
        rewrite (existsb_false_upto _ _ Hv) in P1.
        split; [reflexivity|].
        split; [|split; [|split; [|split; [|split]]]].
        -- now rewrite errors_app, D1, D3.
        -- intros Hq. now rewrite Q1, Q3.
        -- unfold candidates_read in *. cbn [lines_read].
           rewrite !lines_read_app, (lines_read_probe _ _ F1), L2.
           rewrite lines_read_app in C3.
           cbn [app]. rewrite candidates_of_cons, Ht, C3. reflexivity.
        -- cbn [probes]. rewrite !probes_app, P1, P2.
           rewrite probes_app in P3. rewrite P3.
           rewrite (existsb_false_upto _ _ Hv). reflexivity.
        -- cbn [forallb scan_event]. rewrite !forallb_app, F2.
           rewrite forallb_app in F3. rewrite F3.
           now rewrite (forallb_probe_scan _ _ F1).
        -- exists (EvReadLine line :: evs1 ++ evs2 ++ body).
           split; [cbn [app]; now rewrite <- !app_assoc|].
           cbn [filter closes_wordlist]. rewrite !filter_app, K2, K3.
           rewrite (probe_events_no_close member evs1 F1).
           reflexivity.
    + destruct (IH (pre ++ [EvReadLine line]) tried st)
        as (err3 & evs3 & n3 & E3 & D3 & Q3 & C3 & P3 & F3
            & body & -> & K3).
      rewrite E3.
      exists err3, (EvReadLine line :: body ++ [EvClose HWordlist]), n3.
      rewrite <- !app_assoc. cbn [app].
      split; [reflexivity|]. split; [assumption|]. split; [assumption|].
      split; [|split; [assumption|split; [assumption|]]].
      * unfold candidates_read in *. cbn [lines_read].
        now rewrite candidates_of_cons, Ht.
      * exists (EvReadLine line :: body). split; [reflexivity|].
        cbn [filter closes_wordlist]. exact K3.
Qed.

(** ** The run as a whole *)

Lemma find_hd_filter {A} (p : A -> bool) l :
  find p l = hd_error (filter p l).
Proof.
  induction l as [|a l IH]; simpl; [reflexivity|].
  destruct (p a); auto.
Qed.

Lemma archive_ready_prelude w zip_path z target :
  archive_ready w zip_path z target <-> prelude w zip_path = Ready z target.
Proof.
  unfold archive_ready, prelude. split.
  - intros (n & names & -> & -> & -> & ->). reflexivity.
  - destruct (fs w zip_path) as [n|]; [|discriminate].
    destruct (n_zip n) as [z'|e] eqn:Hz;
      [|unfold zip_error_message; repeat destruct (isinstance _ _);
        discriminate].
    destruct (a_namelist z') as [names|e] eqn:Hn; [|discriminate].
    destruct (first_file names) as [t|] eqn:Hf; [|discriminate].
    intros [= -> ->]. eauto 6.
Qed.

(** The archive cannot be opened: one error line, exit code 2, and the
    run ends right after the call of [ZipFile]. *)
Lemma run_no_archive w zip_path wordlist_path verbose m :
  prelude w zip_path = NoArchive m ->
  find_password w zip_path wordlist_path verbose init_state
  = (Ok 2%Z, MkState [] [m] [EvTime; EvZipFile zip_path] 1).
Proof.
  unfold prelude, find_password, ZipFile, attempt, lift.
  rewrite bind_run, time_time_run, bind_run, bind_run, log_run.
  destruct (fs w zip_path) as [n|].
  - destruct (n_zip n) as [z|e] eqn:Hz.
    + destruct (a_namelist z) as [names|e];
        [destruct (first_file names)|]; discriminate.
    + intros [= <-]. unfold zip_error_message, raise.
      destruct (isinstance e FileNotFoundError);
        [|destruct (isinstance e BadZipFile)]; reflexivity.
  - intros [= <-]. reflexivity.
Qed.

Lemma until_frame_exit_run {A} h (body : M A) st :
  until_frame_exit h body st
  = (fst (body st), extend (snd (body st)) [] [] [EvClose h] 0).
Proof.
  unfold until_frame_exit. destruct (body st) as [r st1].
  now rewrite log_run.
Qed.

(** The archive opens but offers no member to test. *)
Lemma run_no_target w zip_path wordlist_path verbose m :
  prelude w zip_path = NoTarget m ->
  find_password w zip_path wordlist_path verbose init_state
  = (Ok 2%Z,
     MkState [] [m]
       [EvTime; EvZipFile zip_path; EvNamelist; EvClose HArchive] 1).
Proof.
  unfold prelude, find_password, ZipFile, list_members, attempt, lift.
  rewrite bind_run, time_time_run, bind_run, bind_run, log_run.
  destruct (fs w zip_path) as [n|]; [|discriminate].
  destruct (n_zip n) as [z|e] eqn:Hz.
  - cbv iota beta. rewrite until_frame_exit_run.
    rewrite bind_run, bind_run, log_run.
    destruct (a_namelist z) as [names|e].
    + rewrite bind_run. unfold ret at 1.
      unfold first_file. rewrite find_hd_filter.
      destruct (filter _ names); [|discriminate].
      intros [= <-]. reflexivity.
    + intros [= <-]. reflexivity.
  - unfold zip_error_message. repeat destruct (isinstance _ _); discriminate.
Qed.

Lemma extend_init out err evs n :
  extend init_state out err evs n = MkState out err evs n.
Proof. reflexivity. Qed.

(** With the archive ready the run is the scanning loop between the
    prelude and the two handlers of the wordlist errors. *)
Lemma run_ready_scan w zip_path wordlist_path verbose z target :
  prelude w zip_path = Ready z target ->
  find_password w zip_path wordlist_path verbose init_state
  = match scan w zip_path verbose (clock w 0) z target (capability_of w)
            (iter_wordlist w wordlist_path) 0
            (MkState [] (prelude_debug w verbose target)
               [EvTime; EvZipFile zip_path; EvNamelist; EvImportPyzipper] 1)
    with
    | (Ok rc, st') => (Ok rc, extend st' [] [] [EvClose HArchive] 0)
    | (Raise e, st') =>
        (Ok 2%Z,
         extend st' [] [wordlist_error_message wordlist_path e]
           [EvClose HArchive] 0)
    end.
Proof.
  unfold prelude, find_password, ZipFile, list_members, import_pz, attempt,
    lift, capability_of, prelude_debug.
  rewrite bind_run, time_time_run, bind_run, bind_run, log_run.
  destruct (fs w zip_path) as [n|]; [|discriminate].
  destruct (n_zip n) as [z'|e] eqn:Hz;
    [|unfold zip_error_message; repeat destruct (isinstance _ _);
      discriminate].
  cbv iota beta. unfold until_frame_exit.
  rewrite bind_run, bind_run, log_run.
  destruct (a_namelist z') as [names|e]; [|discriminate].
  rewrite bind_run. unfold ret at 1. unfold first_file.
  rewrite find_hd_filter.
  destruct (filter _ names) as [|t others]; [discriminate|].
  intros [= -> ->]. cbv iota beta.
  destruct verbose; unfold when;
    destruct (import_pyzipper w) as [pz|e];
    repeat (rewrite ?bind_run, ?print_err_run, ?log_run, ?extend_extend;
            unfold ret at 1; cbv iota beta);
    rewrite extend_init;
    match goal with
    | |- _ = match ?X with _ => _ end =>
        set (R := X);
        match goal with
        | |- context [scan ?a ?b ?c ?d ?e ?f ?g ?h ?i ?s] =>
            change (scan a b c d e f g h i s) with R
        end;
        destruct R as [[rc|e'] st']
    end;
    unfold wordlist_error_message;
    try destruct (isinstance e' FileNotFoundError);
    repeat (rewrite ?bind_run, ?print_err_run; unfold ret; cbv iota beta);
    rewrite log_run, ?extend_extend, ?app_nil_r; reflexivity.
Qed.

(** The run with the archive ready: exit code, standard output and error
    line are those of [expected]; the error line, if any, comes last; the
    wordlist is opened once and read only as far as the search needs. *)
Lemma run_ready w zip_path wordlist_path verbose z target :
  prelude w zip_path = Ready z target ->
  let o := expected w zip_path wordlist_path in
  let V := verifies zip_path z target (capability_of w) in
  exists err evs n,
    find_password w zip_path wordlist_path verbose init_state
    = (Ok (exit_code o),
       MkState (output o)
         (prelude_debug w verbose target ++ err ++ reported o)
         ([EvTime; EvZipFile zip_path; EvNamelist; EvImportPyzipper;
           EvOpenText wordlist_path] ++ evs ++ [EvClose HArchive]) n)
    /\ errors err = []
    /\ (verbose = false -> err = [])
    /\ match open_text w wordlist_path with
       | Raise _ => evs = []
       | Ok src =>
           candidates_read evs = upto V (wordlist_candidates src)
           /\ probes evs
              = flat_map
                  (fun c => upto (verdict zip_path z target (capability_of w))
                              (plan (capability_of w) c))
                  (upto V (wordlist_candidates src))
       end
    /\ forallb (scan_event target) evs = true
    /\ (forall src, open_text w wordlist_path = Ok src ->
        exists body, evs = body ++ [EvClose HWordlist]
                     /\ filter closes_wordlist body = []).
Proof.
  intros Hp. cbv zeta.
  rewrite run_ready_scan with (z := z) (target := target) by exact Hp.
  unfold expected, iter_wordlist. rewrite Hp.
  destruct (open_text w wordlist_path) as [src|e].
  - unfold wordlist_candidates, search.
    destruct (file_iter src) as [lines tail]. cbn [fst snd].
    match goal with
    | |- context [scan _ _ _ ?s _ _ _ _ _ ?st] =>
        destruct (scan_lines_run w zip_path verbose s z target
                    (capability_of w) lines tail
                    [EvOpenText wordlist_path] 0 st)
          as (err & evs & n & E & D & Q & C & P & F & K)
    end.
    rewrite E.
    exists err, evs, (1 + n).
    split; [|split; [exact D|split; [exact Q|split; [split; [exact C|exact P]|
              split; [exact F|intros _ _; exact K]]]]].
    unfold extend. cbn [stdout stderr trace ticks app].
    destruct (find _ (candidates_of lines)) as [c|];
      [destruct (printable w c)|destruct tail as [e|]];
      cbn [reported exit_code output wordlist_error_message isinstance
           exn_cls encode_error exn_class_eqb];
      rewrite <- ?app_assoc, ?app_nil_r, ?Nat.add_0_r; reflexivity.
  - cbn [scan]. rewrite bind_run, log_run. unfold raise.
    exists [], [], 1. cbn [reported exit_code output app].
    rewrite !extend_extend.
    split; [reflexivity|]. split; [reflexivity|]. split; [reflexivity|].
    split; [reflexivity|]. split; [reflexivity|]. intros src [=].
Qed.

(** * The claims *)

Ltac unravel :=
  repeat match goal with
         | H : exists _, _ |- _ => destruct H
         | H : _ /\ _ |- _ => destruct H
         | H : Ok _ = Ok _ |- _ => injection H as H; subst
         | H1 : ?f = Ok _, H2 : ?f = Ok _ |- _ =>
             rewrite H1 in H2; injection H2 as H2; subst
         end;
  try congruence.

(** C7.  The two verification probes are total.  Whatever the archive
    reader does with the member and the password bytes, [try_zipfile_open]
    and [try_pyzipper] return a boolean and never let an exception out;
    they write to neither stream.  The result is [true] exactly when the
    member opened (the password check), the read of one byte succeeded and
    the handles closed; a wrong password and any other exception raised on
    the way give [false] alike. *)
Theorem probes_are_total z zip_path member pwd pz st :
  (exists b st',
     try_zipfile_open z member pwd st = (Ok b, st')
     /\ stdout st' = stdout st /\ stderr st' = stderr st
     /\ (b = true <->
         exists fh, a_open z member pwd = Ok fh
                    /\ fh_read fh = None /\ fh_close fh = None)
     /\ (forall e, a_open z member pwd = Raise e -> b = false)
     /\ (forall fh e, a_open z member pwd = Ok fh ->
                      fh_read fh = Some e -> b = false))
  /\
  (exists b st',
     try_pyzipper zip_path member pwd pz st = (Ok b, st')
     /\ stdout st' = stdout st /\ stderr st' = stderr st
     /\ (b = true <->
         exists z2 fh, pz_AESZipFile pz zip_path = Ok z2
                       /\ z2_open z2 member pwd = Ok fh
                       /\ fh_read fh = None /\ fh_close fh = None
                       /\ z2_close z2 = None)
     /\ (forall e, pz_AESZipFile pz zip_path = Raise e -> b = false)
     /\ (forall z2 e, pz_AESZipFile pz zip_path = Ok z2 ->
                      z2_open z2 member pwd = Raise e -> b = false)
     /\ (forall z2 fh e, pz_AESZipFile pz zip_path = Ok z2 ->
                         z2_open z2 member pwd = Ok fh ->
                         fh_read fh = Some e -> b = false)).
Proof.
  split.
  - destruct (try_zipfile_open_run z member pwd st) as (evs & E & _ & _).
    exists (primary_ok z member pwd), (extend st [] [] evs 0).
    split; [exact E|]. unfold extend; cbn [stdout stderr].
    rewrite !app_nil_r. split; [reflexivity|]. split; [reflexivity|].
    unfold primary_ok.
    destruct (a_open z member pwd) as [fh|e0] eqn:Ho;
      [destruct (fh_read fh) as [e1|] eqn:Hr,
         (fh_close fh) as [e2|] eqn:Hc|];
      repeat split; intros; unravel; eauto.
  - destruct (try_pyzipper_run zip_path member pwd pz st) as (evs & E & _ & _).
    exists (secondary_ok zip_path member pz pwd), (extend st [] [] evs 0).
    split; [exact E|]. unfold extend; cbn [stdout stderr].
    rewrite !app_nil_r. split; [reflexivity|]. split; [reflexivity|].
    unfold secondary_ok.
    destruct (pz_AESZipFile pz zip_path) as [z2|e0] eqn:Ha;
      [destruct (z2_open z2 member pwd) as [fh|e1] eqn:Ho;
       [destruct (fh_read fh) as [e2|] eqn:Hr,
          (fh_close fh) as [e3|] eqn:Hc, (z2_close z2) as [e4|] eqn:Hz|]|];
      repeat split; intros; unravel; eauto 8.
Qed.

Lemma plan_attempts pz c :
  plan pz c
  = flat_map
      (fun enc =>
         match str_encode enc c with
         | Raise _ => []
         | Ok b =>
             (Primary, b) :: match pz with
                             | Some _ => [(Secondary, b)]
                             | None => []
                             end
         end)
      [UTF8; Latin1].
Proof.
  unfold plan, plan_of, capabilities. cbn [flat_map].
  destruct (str_encode UTF8 c), (str_encode Latin1 c), pz; reflexivity.
Qed.

(** ** Lists, listings and traces *)

Lemma first_file_split dirs target rest :
  Forall (fun d => endswith_slash d = true) dirs ->
  endswith_slash target = false ->
  first_file (dirs ++ target :: rest) = Some target.
Proof.
  unfold first_file. intros Hd Ht.
  induction Hd as [|d dirs Hd _ IH]; simpl.
  - now rewrite Ht.
  - now rewrite Hd.
Qed.

Lemma first_file_none names :
  Forall (fun d => endswith_slash d = true) names ->
  first_file names = None.
Proof.
  unfold first_file. induction 1 as [|d dirs Hd _ IH]; simpl; [reflexivity|].
  now rewrite Hd.
Qed.

Lemma pystr_eqb_eq a b : pystr_eqb a b = true -> a = b.
Proof.
  unfold pystr_eqb. destruct (list_eq_dec N.eq_dec a b); congruence.
Qed.

(** What the events of the scanning loop cannot be. *)
Lemma scan_events_facts member evs :
  forallb (scan_event member) evs = true ->
  Forall (eq member) (probed_members evs)
  /\ texts_opened evs = []
  /\ archives_opened evs = []
  /\ existsb closes_archive evs = false.
Proof.
  induction evs as [|ev evs IH]; simpl.
  - intros _. repeat split; constructor.
  - intros H. apply andb_prop in H as [Hev Hevs].
    destruct (IH Hevs) as (I1 & I2 & I3 & I4).
    destruct ev; simpl in *; try discriminate;
      try (apply pystr_eqb_eq in Hev; subst);
      repeat split; auto.
    destruct h; simpl in *; try discriminate; auto.
Qed.

(** The same for the events of a whole scan, up to the release of the
    archive that ends the run. *)
Lemma run_events_facts member evs :
  forallb (scan_event member) evs = true ->
  Forall (eq member) (probed_members (evs ++ [EvClose HArchive]))
  /\ texts_opened (evs ++ [EvClose HArchive]) = []
  /\ archives_opened (evs ++ [EvClose HArchive]) = []
  /\ filter closes_archive evs = [].
Proof.
  induction evs as [|ev evs IH]; simpl.
  - intros _. repeat split; constructor.
  - intros H. apply andb_prop in H as [Hev Hevs].
    destruct (IH Hevs) as (I1 & I2 & I3 & I4).
    destruct ev; simpl in *; try discriminate;
      try (apply pystr_eqb_eq in Hev; subst);
      repeat split; auto.
    destruct h; simpl in *; try discriminate; auto.
Qed.

Lemma utf8_decode_ignore_total st bs :
  exists s, utf8_decode_from Ignore st bs = Ok s.
Proof.
  revert st. induction bs as [|b rest IH]; intros st.
  - destruct st; simpl; eauto.
  - assert (Hfresh : exists s,
               match utf8_start (Byte.to_N b) with
               | SChar c => cons_ok c (utf8_decode_from Ignore None rest)
               | SLead p => utf8_decode_from Ignore (Some p) rest
               | SInvalid => on_error Ignore (utf8_decode_from Ignore None rest)
               end = Ok s).
    { destruct (utf8_start (Byte.to_N b)) as [c|p|]; simpl; auto.
      destruct (IH None) as [s ->]. simpl. eauto. }
    cbn [utf8_decode_from]. destruct st as [p|]; [|exact Hfresh].
    destruct (accepts p (Byte.to_N b)); [|exact Hfresh].
    destruct (p_need p) as [|[|n]]; auto;
      destruct (IH None) as [s ->]; simpl; eauto.
Qed.

Lemma file_iter_tail src : snd (file_iter src) = t_read_error src.
Proof.
  unfold file_iter.
  destruct (utf8_decode_ignore_total None (t_bytes src)) as [text H].
  unfold utf8_decode. rewrite H.
  now destruct (t_read_error src).
Qed.

Lemma find_first {A} (V : A -> bool) cands k c :
  nth_error cands k = Some c ->
  V c = true ->
  (forall c', In c' (firstn k cands) -> V c' = false) ->
  find V cands = Some c
  /\ upto V cands = firstn (S k) cands
  /\ firstn (S k) cands = firstn k cands ++ [c].
Proof.
  revert cands. induction k as [|k IH]; intros [|a cands] Hn Hc Hb;
    try discriminate.
  - injection Hn as ->. simpl. now rewrite Hc.
  - simpl in Hn. cbn [firstn] in Hb.
    assert (Ha : V a = false) by (apply Hb; now left).
    destruct (IH cands Hn Hc) as (I1 & I2 & I3).
    { intros c' Hin. apply Hb. now right. }
    cbn [find upto]. rewrite Ha.
    split; [exact I1|]. split.
    + rewrite I2. reflexivity.
    + change (firstn (S (S k)) (a :: cands))
        with (a :: firstn (S k) cands).
      rewrite I3. reflexivity.
Qed.

Lemma find_none {A} (V : A -> bool) cands :
  (forall c, In c cands -> V c = false) -> find V cands = None.
Proof.
  induction cands as [|a cands IH]; simpl; [reflexivity|].
  intros H. rewrite (H a) by now left. apply IH. intros c Hc. apply H.
  now right.
Qed.

Lemma flat_map_upto_all {A B} (V : B -> bool) (plan : A -> list B) cands :
  (forall c, In c cands -> existsb V (plan c) = false) ->
  flat_map (fun c => upto V (plan c)) cands = flat_map plan cands.
Proof.
  induction cands as [|a cands IH]; simpl; [reflexivity|].
  intros H. rewrite existsb_false_upto by (apply H; now left).
  rewrite IH; [reflexivity|]. intros c Hc. apply H. now right.
Qed.

(** ** Lines and candidates *)

Lemma readlines_body s :
  Forall (fun l => ~ In LF (removelast l)) (readlines s).
Proof.
  induction s as [|c rest IH]; simpl; [constructor|].
  destruct (N.eqb_spec c LF) as [->|Hc].
  - constructor; [simpl; tauto | exact IH].
  - destruct (readlines rest) as [|l ls]; [repeat constructor; simpl; tauto|].
    inversion IH as [|? ? Hl Hls]; subst.
    constructor; [|exact Hls].
    destruct l as [|c' l']; [simpl; tauto|].
    change (removelast (c :: c' :: l')) with (c :: removelast (c' :: l')).
    intros [H|H]; [congruence|]. now apply Hl.
Qed.

Lemma rstrip_no_lf l : ~ In LF (removelast l) -> ~ In LF (rstrip l).
Proof.
  induction l as [|c rest IH]; simpl; [tauto|].
  destruct rest as [|c' rest'].
  - simpl. intros _. unfold is_eol.
    destruct (N.eqb_spec c LF) as [->|Hc]; simpl; [tauto|].
    destruct (c =? CR)%N; simpl; [tauto|]. intros [H|[]]. congruence.
  - intros H.
    assert (Hc : c <> LF) by (intros ->; apply H; now left).
    assert (Hr : ~ In LF (rstrip (c' :: rest')))
      by (apply IH; intros Hin; apply H; now right).
    destruct (rstrip (c' :: rest')) as [|r rs].
    + destruct (is_eol c); simpl; [tauto|]. intros [E|[]]. congruence.
    + intros [E|Hin]; [congruence|]. now apply Hr.
Qed.

Lemma file_iter_lines src :
  exists text, incl (fst (file_iter src)) (readlines text).
Proof.
  unfold file_iter.
  destruct (utf8_decode Ignore (t_bytes src)) as [text|e].
  - destruct (t_read_error src) as [e|]; cbn [fst].
    + eexists. intros l Hl. apply filter_In in Hl. exact (proj1 Hl).
    + eexists. apply incl_refl.
  - exists []. cbn [fst]. apply incl_refl.
Qed.

(** A candidate is never empty and holds no line feed. *)
Lemma candidate_shape src c :
  In c (wordlist_candidates src) -> c <> [] /\ ~ In LF c.
Proof.
  unfold wordlist_candidates, candidates_of. intros H.
  apply filter_In in H as [Hin Ht].
  apply in_map_iff in Hin as (line & <- & Hline).
  split.
  - intros E. rewrite E in Ht. discriminate.
  - destruct (file_iter_lines src) as [text Hincl].
    apply rstrip_no_lf.
    pose proof (readlines_body text) as Hb.
    rewrite Forall_forall in Hb. apply Hb. now apply Hincl.
Qed.

Lemma prefix_reads zip_path wordlist_path evs :
  candidates_read
    ([EvTime; EvZipFile zip_path; EvNamelist; EvImportPyzipper;
      EvOpenText wordlist_path] ++ evs ++ [EvClose HArchive])
  = candidates_read evs
  /\ probes
       ([EvTime; EvZipFile zip_path; EvNamelist; EvImportPyzipper;
         EvOpenText wordlist_path] ++ evs ++ [EvClose HArchive])
     = probes evs.
Proof.
  unfold candidates_read. cbn [app lines_read probes].
  now rewrite lines_read_app, probes_app, !app_nil_r.
Qed.

Lemma errors_prelude_debug w verbose target :
  errors (prelude_debug w verbose target) = [].
Proof.
  unfold prelude_debug. destruct verbose; [|reflexivity].
  now destruct (import_pyzipper w).
Qed.

(** C4.  When the archive is ready, the wordlist is read to its end
    without a read failure and no (candidate, encoding, capability)
    combination verifies, [find_password] returns 1 and nothing is written
    to standard output; no error line is written either, and every
    candidate of the file has been taken and tried in full. *)
Theorem exhausted_wordlist_returns_1 w zip_path wordlist_path verbose z target
    src :
  archive_ready w zip_path z target ->
  open_text w wordlist_path = Ok src ->
  t_read_error src = None ->
  (forall c, In c (wordlist_candidates src) ->
             verifies zip_path z target (capability_of w) c = false) ->
  exists st',
    find_password w zip_path wordlist_path verbose init_state
    = (Ok 1%Z, st')
    /\ stdout st' = []
    /\ errors (stderr st') = []
    /\ candidates_read (trace st') = wordlist_candidates src
    /\ probes (trace st')
       = flat_map (plan (capability_of w)) (wordlist_candidates src).
Proof.
  intros Hready Hopen Hend Hnone.
  apply archive_ready_prelude in Hready.
  destruct (run_ready w zip_path wordlist_path verbose z target Hready)
    as (err & evs & n & E & D & _ & R & _).
  rewrite Hopen in R. destruct R as [RC RP].
  pose proof (find_none _ _ Hnone) as F.
  assert (Ho : expected w zip_path wordlist_path = NotFound).
  { unfold expected. rewrite Hready, Hopen. unfold search.
    fold (wordlist_candidates src). now rewrite F, file_iter_tail, Hend. }
  rewrite Ho in E. cbn [exit_code output reported] in E.
  eexists. split; [exact E|]. cbn [stdout stderr trace].
  split; [reflexivity|]. split.
  { now rewrite !errors_app, errors_prelude_debug, D. }
  destruct (prefix_reads zip_path wordlist_path evs) as [-> ->].
  rewrite RC, RP, (upto_none _ _ F). split; [reflexivity|].
  apply flat_map_upto_all. exact Hnone.
Qed.

Lemma zip_error_is_error zip_path e :
  is_error_message (zip_error_message zip_path e) = true.
Proof. unfold zip_error_message. now repeat destruct (isinstance _ _). Qed.

Lemma wordlist_error_is_error wordlist_path e :
  is_error_message (wordlist_error_message wordlist_path e) = true.
Proof. unfold wordlist_error_message. now destruct (isinstance _ _). Qed.

(** Every structural error is what [expected] reports. *)
Lemma structural_error_expected w zip_path wordlist_path m :
  structural_error w zip_path wordlist_path m ->
  expected w zip_path wordlist_path = Failed m
  /\ is_error_message m = true.
Proof.
  intros H. unfold expected.
  destruct H as [H | n e H1 H2 H3 | n e H1 H2 | n z e H1 H2 H3
                | n z names H1 H2 H3 H4 | z target H1 H2 | z target e H1 H2
                | z target src e H1 H2 H3 H4];
    try (apply archive_ready_prelude in H1; rewrite H1);
    try (unfold prelude; rewrite ?H, ?H1, ?H2, ?H3).
  - auto.
  - unfold zip_error_message, isinstance. rewrite H3. auto.
  - split; [reflexivity | apply zip_error_is_error].
  - auto.
  - rewrite (first_file_none _ H4). auto.
  - unfold open_text. rewrite H2. auto.
  - split; [reflexivity | apply wordlist_error_is_error].
  - unfold search. fold (wordlist_candidates src).
    rewrite (find_none _ _ H4), file_iter_tail, H3.
    split; [reflexivity | apply wordlist_error_is_error].
Qed.

(** The run whatever the world: exit code and standard output are those
    of [expected], and the error stream ends with its error line when
    there is one and holds no other. *)
Lemma find_password_run w zip_path wordlist_path verbose :
  exists st' dbg,
    find_password w zip_path wordlist_path verbose init_state
    = (Ok (exit_code (expected w zip_path wordlist_path)), st')
    /\ stdout st' = output (expected w zip_path wordlist_path)
    /\ stderr st' = dbg ++ reported (expected w zip_path wordlist_path)
    /\ errors dbg = []
    /\ (verbose = false -> dbg = []).
Proof.
  unfold expected.
  destruct (prelude w zip_path) as [m|m|z target] eqn:Hp.
  - rewrite (run_no_archive w zip_path wordlist_path verbose m Hp).
    eexists _, []. repeat split.
  - rewrite (run_no_target w zip_path wordlist_path verbose m Hp).
    eexists _, []. repeat split.
  - destruct (run_ready w zip_path wordlist_path verbose z target Hp)
      as (err & evs & n & E & D & Q & _ & _).
    unfold expected in E. rewrite Hp in E. rewrite E.
    eexists _, (prelude_debug w verbose target ++ err).
    cbn [stdout stderr]. rewrite <- app_assoc.
    repeat split.
    + now rewrite errors_app, errors_prelude_debug, D.
    + intros Hv. rewrite (Q Hv). unfold prelude_debug. now rewrite Hv.
Qed.

(** C3.  Each structural error -- the archive path does not exist, the
    file is not a ZIP container or cannot be opened, its listing fails, it
    holds no entry other than directories, the wordlist path does not
    exist or cannot be opened, reading the wordlist fails before any
    candidate verified -- ends the run with exit code 2, writes its
    message as the last and only error line of the error stream and writes
    nothing to standard output. *)
Theorem structural_errors_return_2 w zip_path wordlist_path verbose m :
  structural_error w zip_path wordlist_path m ->
  exists st' dbg,
    find_password w zip_path wordlist_path verbose init_state
    = (Ok 2%Z, st')
    /\ stdout st' = []
    /\ stderr st' = dbg ++ [m]
    /\ errors dbg = []
    /\ is_error_message m = true.
Proof.
  intros H. apply structural_error_expected in H as [Ho Hm].
  destruct (find_password_run w zip_path wordlist_path verbose)
    as (st' & dbg & E & O & R & D & _).
  rewrite Ho in E, O, R. cbn [exit_code output reported] in *.
  exists st', dbg. auto.
Qed.

(** C5.  The member the probes are pointed at is the first entry of the
    archive's listing whose name does not end in ["/"]: every probe of the
    run names it (and the verbose run announces it first).  When every
    entry ends in ["/"], the run ends with exit code 2 and the single line
    [ErrNoMembers]; no probe is made and the wordlist is not opened. *)
Theorem target_member_is_first_file w zip_path wordlist_path verbose n z
    names :
  fs w zip_path = Some n ->
  n_zip n = Ok z ->
  a_namelist z = Ok names ->
  exists rc st',
    find_password w zip_path wordlist_path verbose init_state = (Ok rc, st')
    /\ (forall dirs target rest,
          names = dirs ++ target :: rest ->
          Forall (fun d => endswith_slash d = true) dirs ->
          endswith_slash target = false ->
          Forall (eq target) (probed_members (trace st'))
          /\ (verbose = true ->
              exists more, stderr st' = DbgTargetMember target :: more)
          /\ find_password w zip_path wordlist_path verbose init_state
             = match
                 scan w zip_path verbose (clock w 0) z target
                   (capability_of w) (iter_wordlist w wordlist_path) 0
                   (MkState [] (prelude_debug w verbose target)
                      [EvTime; EvZipFile zip_path; EvNamelist;
                       EvImportPyzipper] 1)
               with
               | (Ok rc, st') =>
                   (Ok rc, extend st' [] [] [EvClose HArchive] 0)
               | (Raise e, st') =>
                   (Ok 2%Z,
                    extend st' [] [wordlist_error_message wordlist_path e]
                      [EvClose HArchive] 0)
               end)
    /\ (Forall (fun d => endswith_slash d = true) names ->
        rc = 2%Z /\ stdout st' = [] /\ stderr st' = [ErrNoMembers]
        /\ probes (trace st') = [] /\ probed_members (trace st') = []
        /\ texts_opened (trace st') = []).
Proof.
  intros Hfs Hzip Hnames.
  destruct (first_file names) as [t|] eqn:Hf.
  - assert (Hp : prelude w zip_path = Ready z t)
      by (unfold prelude; now rewrite Hfs, Hzip, Hnames, Hf).
    destruct (run_ready w zip_path wordlist_path verbose z t Hp)
      as (err & evs & k & E & _ & _ & _ & F & _).
    eexists _, _. split; [exact E|]. cbn [stderr trace]. split.
    + intros dirs target rest -> Hd Ht.
      rewrite (first_file_split dirs target rest Hd Ht) in Hf.
      injection Hf as <-.
      split; [|split].
      * cbn [app probed_members]. apply (run_events_facts target evs F).
      * intros ->. cbn [prelude_debug app]. eauto.
      * apply (run_ready_scan w zip_path wordlist_path verbose z target Hp).
    + intros Hall. rewrite (first_file_none names Hall) in Hf. discriminate.
  - assert (Hp : prelude w zip_path = NoTarget ErrNoMembers)
      by (unfold prelude; now rewrite Hfs, Hzip, Hnames, Hf).
    rewrite (run_no_target w zip_path wordlist_path verbose _ Hp).
    eexists _, _. split; [reflexivity|]. cbn [stdout stderr trace]. split.
    + intros dirs target rest -> Hd Ht.
      rewrite (first_file_split dirs target rest Hd Ht) in Hf. discriminate.
    + intros _. repeat split.
Qed.

(** C10.  Archive errors come before wordlist errors.  A run that fails
    on the archive (it cannot be opened, listed, or holds no file entry)
    ends with that error alone, whatever the wordlist path is, and never
    opens a text file; in particular, with both paths missing the one line
    reported is the archive's.  A run that opens the wordlist has opened
    and listed the archive first. *)
Theorem archive_errors_come_first w zip_path wordlist_path verbose :
  exists rc st',
    find_password w zip_path wordlist_path verbose init_state = (Ok rc, st')
    /\ (forall m,
          prelude w zip_path = NoArchive m \/ prelude w zip_path = NoTarget m ->
          rc = 2%Z /\ stderr st' = [m] /\ texts_opened (trace st') = []
          /\ lines_read (trace st') = [])
    /\ (fs w zip_path = None -> fs w wordlist_path = None ->
        stderr st' = [ErrZipNotFound zip_path]
        /\ trace st' = [EvTime; EvZipFile zip_path])
    /\ (texts_opened (trace st') <> [] ->
        texts_opened (trace st') = [wordlist_path]
        /\ exists z target evs,
             archive_ready w zip_path z target
             /\ trace st'
                = [EvTime; EvZipFile zip_path; EvNamelist; EvImportPyzipper;
                   EvOpenText wordlist_path] ++ evs).
Proof.
  destruct (prelude w zip_path) as [m|m|z target] eqn:Hp.
  - rewrite (run_no_archive w zip_path wordlist_path verbose m Hp).
    eexists _, _. split; [reflexivity|]. cbn [stderr trace]. split; [|split].
    + intros m' [[= <-]|[=]]. repeat split.
    + intros Hz _. unfold prelude in Hp. rewrite Hz in Hp.
      injection Hp as <-. split; reflexivity.
    + intros H. now contradiction H.
  - rewrite (run_no_target w zip_path wordlist_path verbose m Hp).
    eexists _, _. split; [reflexivity|]. cbn [stderr trace]. split; [|split].
    + intros m' [[=]|[= <-]]. repeat split.
    + intros Hz _. unfold prelude in Hp. rewrite Hz in Hp. discriminate.
    + intros H. now contradiction H.
  - destruct (run_ready w zip_path wordlist_path verbose z target Hp)
      as (err & evs & k & E & _ & _ & _ & F & _).
    eexists _, _. split; [exact E|]. cbn [stderr trace]. split; [|split].
    + intros m' [[=]|[=]].
    + intros Hz _. unfold prelude in Hp. rewrite Hz in Hp. discriminate.
    + intros _. split.
      * cbn [app texts_opened].
        now rewrite (proj1 (proj2 (run_events_facts target evs F))).
      * exists z, target, (evs ++ [EvClose HArchive]). split; [|reflexivity].
        now apply archive_ready_prelude.
Qed.






(** ** The wordlist reader *)

Lemma lines_gen_values pre lines tail :
  gen_values (lines_gen pre lines tail) = candidates_of lines
  /\ gen_end (lines_gen pre lines tail) = tail.
Proof.
  revert pre. induction lines as [|line more IH]; intros pre.
  - simpl. now destruct tail.
  - cbn [lines_gen]. rewrite candidates_of_cons.
    destruct (truthy (rstrip line)).
    + cbn [gen_values gen_end]. destruct (IH []) as [-> ->]. auto.
    + apply IH.
Qed.

Lemma rstrip_junk line :
  exists junk, line = rstrip line ++ junk /\ forallb is_eol junk = true.
Proof.
  induction line as [|c rest (junk & Hj & Hall)]; [now exists []|].
  cbn [rstrip]. destruct (rstrip rest) as [|r rs].
  - destruct (is_eol c) eqn:Hc.
    + exists (c :: rest). split; [reflexivity|].
      simpl in Hj. subst rest. simpl. now rewrite Hc.
    + exists rest. split; [reflexivity|]. simpl in Hj. now subst rest.
  - exists junk. split; [|exact Hall]. rewrite Hj at 1. reflexivity.
Qed.

Lemma rstrip_last line body c :
  rstrip line = body ++ [c] -> is_eol c = false.
Proof.
  revert body. induction line as [|c0 rest IH]; intros body.
  - simpl. now destruct body.
  - cbn [rstrip]. destruct (rstrip rest) as [|r rs].
    + destruct (is_eol c0) eqn:Hc; [now destruct body|].
      destruct body as [|b [|b' body']]; simpl; intros [=]; now subst.
    + destruct body as [|b body']; cbn [app].
      * intros [=].
      * intros [= -> H]. apply (IH body'). exact H.
Qed.

(** Under [errors='ignore'] the decoder never raises: it decodes what a
    strict decoder makes of the bytes that are left when the undecodable
    ones are taken out. *)
Lemma decode_ignore_drops st bs :
  exists text kept,
    utf8_decode_from Ignore st bs = Ok text
    /\ subseq kept bs
    /\ (utf8_decode_from Strict st kept = Ok text
        \/ (st <> None /\ utf8_decode_from Strict None kept = Ok text)).
Proof.
  revert st. induction bs as [|b rest IH]; intros st.
  - exists [], []. destruct st; simpl.
    + split; [reflexivity|]. split; [constructor|]. right. split; [discriminate | first [reflexivity | assumption]].
    + split; [reflexivity|]. split; [constructor|]. now left.
  - assert (Hfresh : exists text kept,
               match utf8_start (Byte.to_N b) with
               | SChar c => cons_ok c (utf8_decode_from Ignore None rest)
               | SLead p => utf8_decode_from Ignore (Some p) rest
               | SInvalid => on_error Ignore (utf8_decode_from Ignore None rest)
               end = Ok text
               /\ subseq kept (b :: rest)
               /\ utf8_decode_from Strict None kept = Ok text).
    { destruct (utf8_start (Byte.to_N b)) as [c|p|] eqn:Hs.
      - destruct (IH None) as (text & kept & E & S & [L|[C _]]);
          [|congruence].
        exists (c :: text), (b :: kept). rewrite E.
        split; [reflexivity|]. split; [now constructor|].
        cbn [utf8_decode_from]. now rewrite Hs, L.
      - destruct (IH (Some p)) as (text & kept & E & S & [L|[_ R]]).
        + exists text, (b :: kept). split; [exact E|].
          split; [now constructor|].
          cbn [utf8_decode_from]. now rewrite Hs.
        + exists text, kept. split; [exact E|].
          split; [now constructor|exact R].
      - destruct (IH None) as (text & kept & E & S & [L|[C _]]);
          [|congruence].
        exists text, kept. split; [exact E|].
        split; [now constructor|exact L]. }
    cbn [utf8_decode_from]. destruct st as [p|].
    + destruct (accepts p (Byte.to_N b)) eqn:Ha.
      * destruct (p_need p) as [|[|k]] eqn:Hn.
        -- destruct (IH None) as (text & kept & E & S & [L|[C _]]);
             [|congruence].
           eexists _, (b :: kept). rewrite E.
           split; [reflexivity|]. split; [now constructor|]. left.
           cbn [utf8_decode_from]. now rewrite Ha, Hn, L.
        -- destruct (IH None) as (text & kept & E & S & [L|[C _]]);
             [|congruence].
           eexists _, (b :: kept). rewrite E.
           split; [reflexivity|]. split; [now constructor|]. left.
           cbn [utf8_decode_from]. now rewrite Ha, Hn, L.
        -- match goal with
           | |- context [utf8_decode_from Ignore (Some ?q) rest] =>
               destruct (IH (Some q)) as (text & kept & E & S & [L|[_ R]])
           end.
           ++ exists text, (b :: kept). split; [exact E|].
              split; [now constructor|]. left.
              cbn [utf8_decode_from]. now rewrite Ha, Hn.
           ++ exists text, kept. split; [exact E|].
              split; [now constructor|]. right. split; [discriminate | first [reflexivity | assumption]].
      * destruct Hfresh as (text & kept & E & S & L).
        exists text, kept. split; [exact E|]. split; [exact S|].
        right. split; [discriminate | first [reflexivity | assumption]].
    + destruct Hfresh as (text & kept & E & S & L).
      exists text, kept. auto.
Qed.

(** C6.  For a wordlist file that exists and is read without failure,
    [iter_wordlist] yields, in file order, the lines of the file with
    their trailing carriage returns and line feeds stripped, leaving out
    those that are empty after stripping, and then returns.  What is
    stripped is a run of line-end characters at the end of the line and
    what is left does not end in one; every yielded string is non-empty.
    Decoding never raises: for any bytes the text is what a strict decoder
    makes of the bytes after the undecodable ones are dropped.  When
    reading fails midway the candidates of the lines read so far are
    yielded before the failure is raised.  A path that does not exist
    raises [FileNotFoundError] (when the first value is asked for). *)
Theorem iter_wordlist_yields w path :
  (forall src,
     open_text w path = Ok src ->
     exists text kept,
       utf8_decode Ignore (t_bytes src) = Ok text
       /\ subseq kept (t_bytes src)
       /\ utf8_decode Strict kept = Ok text
       /\ (t_read_error src = None ->
           gen_values (iter_wordlist w path)
           = filter truthy (map rstrip (readlines (translate_newlines text)))
           /\ gen_end (iter_wordlist w path) = None)
       /\ gen_values (iter_wordlist w path) = wordlist_candidates src
       /\ gen_end (iter_wordlist w path) = t_read_error src
       /\ Forall (fun v => v <> [] /\ ~ In LF v)
            (gen_values (iter_wordlist w path)))
  /\ (forall line,
        exists junk,
          line = rstrip line ++ junk
          /\ forallb is_eol junk = true
          /\ forall body c, rstrip line = body ++ [c] -> is_eol c = false)
  /\ (forall bs, exists text, utf8_decode Ignore bs = Ok text)
  /\ (fs w path = None ->
      exists e,
        iter_wordlist w path = GRaise [EvOpenText path] e
        /\ exn_cls e = FileNotFoundError).
Proof.
  split; [|split; [|split]].
  - intros src Hopen.
    destruct (decode_ignore_drops None (t_bytes src))
      as (text & kept & E & S & [L|[C _]]); [|congruence].
    exists text, kept. split; [exact E|]. split; [exact S|].
    split; [exact L|].
    assert (Hv : gen_values (iter_wordlist w path) = wordlist_candidates src
                 /\ gen_end (iter_wordlist w path) = t_read_error src).
    { unfold iter_wordlist, wordlist_candidates. rewrite Hopen.
      rewrite <- (file_iter_tail src).
      destruct (file_iter src) as [lines tail]. cbn [fst snd].
      apply lines_gen_values. }
    destruct Hv as [Hv He]. split; [|split; [exact Hv|split; [exact He|]]].
    + intros Hend. rewrite Hv, He, Hend. split; [|reflexivity].
      unfold wordlist_candidates, file_iter.
      unfold utf8_decode in E |- *. now rewrite E, Hend.
    + rewrite Hv. apply Forall_forall. intros c Hc.
      now apply (candidate_shape src).
  - intros line. destruct (rstrip_junk line) as (junk & H1 & H2).
    exists junk. split; [exact H1|]. split; [exact H2|].
    apply rstrip_last.
  - intros bs. apply utf8_decode_ignore_total.
  - intros Hnone. exists (not_found path).
    unfold iter_wordlist, open_text. now rewrite Hnone.
Qed.

(** * Scenarios

    The claims at the concrete worlds of [Examples]. *)

Import Examples.
Local Open Scope string_scope.
Local Open Scope list_scope.

(** ** Where the code departs from the claims *)

(** C1 at a failing input.  [latin.zip] is protected with the password
    U+00E9, stored as its Latin-1 byte; the wordlist holds [admin] and
    then that letter; standard output is encoded in ASCII.  The archive is
    ready and the second candidate is the first that verifies, so the
    claim (and the docstring, line 9) has it printed and the exit code 0.
    The run reads the two candidates and finds the match, but the [print]
    of line 129 raises [UnicodeEncodeError] inside the [try] of line 111:
    the handler of line 148 reports it as an error of reading the
    wordlist and the run ends with exit code 2 and an empty standard
    output.  On the same disk with standard output in UTF-8 the candidate
    is printed and the exit code is 0. *)
Theorem unprintable_password_exits_2 :
  archive_ready w_ascii "latin.zip" latin_archive (py "a.txt")
  /\ open_text w_ascii "accents.txt" = Ok accents_txt
  /\ wordlist_candidates accents_txt = [py "admin"; e_acute]
  /\ verifies "latin.zip" latin_archive (py "a.txt") (capability_of w_ascii)
       (py "admin") = false
  /\ verifies "latin.zip" latin_archive (py "a.txt") (capability_of w_ascii)
       e_acute = true
  /\ find_password w_ascii "latin.zip" "accents.txt" false init_state
     = (Ok 2%Z,
        MkState [] [ErrWordlist encode_error]
          [EvTime; EvZipFile "latin.zip"; EvNamelist; EvImportPyzipper;
           EvOpenText "accents.txt";
           EvReadLine (py "admin" ++ [LF]);
           EvTryZipfileOpen (py "a.txt") (list_byte_of_string "admin");
           EvOpenMember (py "a.txt") (list_byte_of_string "admin");
           EvTryZipfileOpen (py "a.txt") (list_byte_of_string "admin");
           EvOpenMember (py "a.txt") (list_byte_of_string "admin");
           EvReadLine (e_acute ++ [LF]);
           EvTryZipfileOpen (py "a.txt") [xc3; xa9];
           EvOpenMember (py "a.txt") [xc3; xa9];
           EvTryZipfileOpen (py "a.txt") [xe9];
           EvOpenMember (py "a.txt") [xe9];
           EvRead HMember; EvClose HMember;
           EvClose HWordlist; EvClose HArchive] 1)
  /\ (let r := find_password w_utf8 "latin.zip" "accents.txt" false
                 init_state in
      fst r = Ok 0%Z /\ stdout (snd r) = e_acute ++ [LF]).
Proof.
  split.
  { exists (MkNode (Ok latin_archive) (Ok (MkText [] None))), [py "a.txt"].
    repeat split; reflexivity. }
  repeat split; vm_compute; reflexivity.
Qed.

(** C2 at a failing input.  The candidate U+00E9 against [latin.zip],
    with standard output encoded in ASCII.  The attempts are made as the
    claim orders them: the UTF-8 bytes first, which do not open the
    member, then the Latin-1 byte, which does.  The match is not reported
    as found: the [print] of line 129 raises, no candidate is printed and
    the loop is left by the exception instead of the [return 0]; the run
    around it ends with exit code 2.  This is the defect shown for C1. *)
Theorem latin1_match_not_reported :
  str_encode UTF8 e_acute = Ok [xc3; xa9]
  /\ primary_ok latin_archive (py "a.txt") [xc3; xa9] = false
  /\ str_encode Latin1 e_acute = Ok [xe9]
  /\ primary_ok latin_archive (py "a.txt") [xe9] = true
  /\ (let r := try_encodings w_ascii "latin.zip" latin_archive (py "a.txt")
                 None [UTF8; Latin1] e_acute init_state in
      fst r = Raise encode_error
      /\ stdout (snd r) = []
      /\ probes (trace (snd r)) = [(Primary, [xc3; xa9]); (Primary, [xe9])])
  /\ fst (find_password w_ascii "latin.zip" "accents.txt" true init_state)
     = Ok 2%Z.
Proof. repeat split; vm_compute; reflexivity. Qed.

(** ** The claims at work *)

Lemma secret_zip_ready : archive_ready w1 "secret.zip" secret_archive readme.
Proof.
  exists secret_zip, [py "docs/"; py "docs/readme.txt"].
  repeat split; reflexivity.
Qed.

(** [secret.zip] with the wordlist admin, password. *)
Lemma exhausted_wordlist_returns_1_witness :
  exists st',
    find_password w1 "secret.zip" "short.txt" true init_state = (Ok 1%Z, st')
    /\ stdout st' = [].
Proof.
  destruct (exhausted_wordlist_returns_1 w1 "secret.zip" "short.txt" true
              secret_archive readme short_txt)
    as (st' & E & O & _).
  - exact secret_zip_ready.
  - reflexivity.
  - reflexivity.
  - intros c [<-|[<-|[]]]; vm_compute; reflexivity.
  - exists st'. split; [exact E|exact O].
Defined.

(** The wordlist [missing.txt] does not exist. *)
Lemma structural_errors_return_2_witness :
  exists st' dbg,
    find_password w1 "secret.zip" "missing.txt" true init_state
    = (Ok 2%Z, st')
    /\ stdout st' = []
    /\ stderr st' = dbg ++ [ErrWordlistNotFound "missing.txt"].
Proof.
  destruct (structural_errors_return_2 w1 "secret.zip" "missing.txt" true
              (ErrWordlistNotFound "missing.txt"))
    as (st' & dbg & E & O & R & _).
  - apply WordlistNotFound with (z := secret_archive) (target := readme).
    + exact secret_zip_ready.
    + reflexivity.
  - exists st', dbg. split; [exact E|]. split; [exact O|exact R].
Defined.

(** The first entry of [secret.zip] is a directory, the second is the
    member that is probed. *)
Lemma target_member_is_first_file_witness :
  exists rc st',
    find_password w1 "secret.zip" "top.txt" true init_state = (Ok rc, st')
    /\ Forall (eq readme) (probed_members (trace st')).
Proof.
  destruct (target_member_is_first_file w1 "secret.zip" "top.txt" true
              secret_zip secret_archive [py "docs/"; py "docs/readme.txt"])
    as (rc & st' & E & H & _); try reflexivity.
  exists rc, st'. split; [exact E|].
  apply (H [py "docs/"] readme []).
  - reflexivity.
  - repeat constructor.
  - reflexivity.
Defined.


(** A wordlist with CRLF line ends, an empty line, a stray byte [0xFF]
    and a truncated sequence at its end. *)
Lemma iter_wordlist_yields_witness :
  gen_values (iter_wordlist w_aes "crlf.txt") = [py "a"; py "b"]
  /\ gen_end (iter_wordlist w_aes "crlf.txt") = None
  /\ exists kept,
       subseq kept [x61; x0d; x0a; x0d; x0a; xff; x62; x0d; xc3]
       /\ utf8_decode Strict kept = Ok [97; 13; 10; 13; 10; 98; 13]%N.
Proof.
  destruct (iter_wordlist_yields w_aes "crlf.txt") as (H & _).
  destruct (H (MkText [x61; x0d; x0a; x0d; x0a; xff; x62; x0d; xc3] None)
              eq_refl)
    as (text & kept & E & S & L & _ & V & T & _).
  split; [rewrite V; reflexivity|]. split; [rewrite T; reflexivity|].
  exists kept. split; [exact S|].
  rewrite L. rewrite <- E. reflexivity.
Defined.

(** A wrong password is a [false], not an exception. *)
Lemma probes_are_total_witness :
  fst (try_zipfile_open secret_archive readme (list_byte_of_string "admin")
         init_state) = Ok false.
Proof.
  destruct (probes_are_total secret_archive "secret.zip" readme
              (list_byte_of_string "admin") (aes_reader []) init_state)
    as ((b & st' & E & _ & _ & _ & Hwrong & _) & _).
  rewrite E. cbn [fst]. f_equal.
  apply (Hwrong bad_password). reflexivity.
Defined.

(** Both paths missing: the archive is the one reported. *)
Lemma archive_errors_come_first_witness :
  exists rc st',
    find_password w1 "nope.zip" "missing.txt" false init_state = (Ok rc, st')
    /\ stderr st' = [ErrZipNotFound "nope.zip"]
    /\ trace st' = [EvTime; EvZipFile "nope.zip"].
Proof.
  destruct (archive_errors_come_first w1 "nope.zip" "missing.txt" false)
    as (rc & st' & E & _ & H & _).
  exists rc, st'. split; [exact E|]. apply H; reflexivity.
Defined.


(** ** Runs of the model *)

Example decode_strict_raises :
  utf8_decode Strict [x61; xff; x62] = Raise decode_error.
Proof. reflexivity. Qed.

Example decode_ignore_drops_byte :
  utf8_decode Ignore [x61; xff; x62] = Ok (py "ab").
Proof. reflexivity. Qed.

Example decode_rejects_overlong_and_surrogate :
  utf8_decode Ignore [xc0; x80; xed; xa0; x80; xe2; x82; xac; xf0; x9f; x98; x80]
  = Ok [0x20AC; 0x1F600]%N.
Proof. reflexivity. Qed.

Example encode_euro :
  str_encode UTF8 [0x20AC]%N = Ok [xe2; x82; xac]
  /\ str_encode Latin1 [0x20AC]%N = Raise encode_error.
Proof. split; reflexivity. Qed.

Example rstrip_strips_only_the_end :
  rstrip [97; 13; 98; 13; 10; 10]%N = [97; 13; 98]%N.
Proof. reflexivity. Qed.

(** The archive that only pyzipper reads: each candidate is probed four
    times (two encodings, two readers) until the second reader accepts. *)
Example aes_run :
  let r := find_password w_aes "vault.zip" "top.txt" false init_state in
  fst r = Ok 0%Z
  /\ stdout (snd r) = py "123456" ++ [LF]
  /\ map fst (probes (trace (snd r)))
     = [Primary; Secondary; Primary; Secondary; Primary; Secondary].
Proof. vm_compute. repeat split. Qed.

Example only_directories :
  find_password w_aes "dirs.zip" "top.txt" true init_state
  = (Ok 2%Z,
     MkState [] [ErrNoMembers]
       [EvTime; EvZipFile "dirs.zip"; EvNamelist; EvClose HArchive] 1).
Proof. reflexivity. Qed.

Example not_a_zip :
  find_password w1 "top.txt" "top.txt" false init_state
  = (Ok 2%Z, MkState [] [ErrBadZip "top.txt"] [EvTime; EvZipFile "top.txt"] 1).
Proof. reflexivity. Qed.

(** * Further properties of the script *)

Local Close Scope string_scope.

(** ** What an exit code tells *)

Lemma find_split {A} (p : A -> bool) l c :
  find p l = Some c ->
  exists before after,
    l = before ++ c :: after
    /\ p c = true
    /\ (forall x, In x before -> p x = false).
Proof.
  induction l as [|a l IH]; simpl; [discriminate|].
  destruct (p a) eqn:Ha.
  - intros [= ->]. exists [], l. repeat split; auto. intros x [].
  - intros H. destruct (IH H) as (before & after & -> & Hc & Hb).
    exists (a :: before), after. repeat split; auto.
    intros x [<-|Hx]; auto.
Qed.

Lemma find_none_slashes names :
  first_file names = None ->
  Forall (fun m => endswith_slash m = true) names.
Proof.
  unfold first_file. intros H. apply Forall_forall. intros m Hm.
  pose proof (List.find_none _ _ H m Hm) as Hn. simpl in Hn.
  now destruct (endswith_slash m).
Qed.

Lemma expected_found w zip_path wordlist_path c :
  expected w zip_path wordlist_path = Found c ->
  exists z target src,
    archive_ready w zip_path z target
    /\ open_text w wordlist_path = Ok src
    /\ find (verifies zip_path z target (capability_of w))
         (wordlist_candidates src) = Some c
    /\ printable w c = true.
Proof.
  unfold expected.
  destruct (prelude w zip_path) as [m|m|z target] eqn:Hp; try discriminate.
  destruct (open_text w wordlist_path) as [src|e] eqn:Ho; [|discriminate].
  unfold search. fold (wordlist_candidates src).
  destruct (find _ (wordlist_candidates src)) as [c'|] eqn:Hf.
  - destruct (printable w c') eqn:Hpr; [|discriminate].
    intros [= ->]. exists z, target, src.
    split; [now apply archive_ready_prelude|]. auto.
  - destruct (snd (file_iter src)); discriminate.
Qed.

Lemma expected_not_found w zip_path wordlist_path :
  expected w zip_path wordlist_path = NotFound ->
  exists z target src,
    archive_ready w zip_path z target
    /\ open_text w wordlist_path = Ok src
    /\ t_read_error src = None
    /\ find (verifies zip_path z target (capability_of w))
         (wordlist_candidates src) = None.
Proof.
  unfold expected.
  destruct (prelude w zip_path) as [m|m|z target] eqn:Hp; try discriminate.
  destruct (open_text w wordlist_path) as [src|e] eqn:Ho; [|discriminate].
  unfold search. fold (wordlist_candidates src).
  destruct (find _ (wordlist_candidates src)) as [c'|] eqn:Hf;
    [destruct (printable w c'); discriminate|].
  rewrite file_iter_tail.
  destruct (t_read_error src) eqn:Ht; [discriminate|].
  intros _. exists z, target, src.
  split; [now apply archive_ready_prelude|]. auto.
Qed.

(** A run fails on a structural error or on a match that standard output
    does not take. *)
Lemma expected_failed w zip_path wordlist_path m :
  expected w zip_path wordlist_path = Failed m ->
  structural_error w zip_path wordlist_path m
  \/ (m = ErrWordlist encode_error
      /\ exists c, match_not_printable w zip_path wordlist_path c).
Proof.
  unfold expected.
  destruct (prelude w zip_path) as [m'|m'|z target] eqn:Hp.
  - intros [= <-]. left. unfold prelude in Hp.
    destruct (fs w zip_path) as [n|] eqn:Hfs.
    + destruct (n_zip n) as [z|e] eqn:Hz.
      * destruct (a_namelist z) as [names|e];
          [destruct (first_file names)|]; discriminate.
      * injection Hp as <-. now apply ArchiveUnreadable with (n := n).
    + injection Hp as <-. now apply ArchiveNotFound.
  - intros [= <-]. left. unfold prelude in Hp.
    destruct (fs w zip_path) as [n|] eqn:Hfs; [|discriminate].
    destruct (n_zip n) as [z|e] eqn:Hz; [|discriminate].
    destruct (a_namelist z) as [names|e] eqn:Hn.
    + destruct (first_file names) eqn:Hf; [discriminate|].
      injection Hp as <-.
      apply NoFileEntry with (n := n) (z := z) (names := names); auto.
      now apply find_none_slashes.
    + injection Hp as <-. now apply ListingFailed with (n := n) (z := z).
  - apply archive_ready_prelude in Hp.
    destruct (open_text w wordlist_path) as [src|e] eqn:Ho.
    + unfold search. fold (wordlist_candidates src).
      destruct (find _ (wordlist_candidates src)) as [c'|] eqn:Hf.
      * destruct (printable w c') eqn:Hpr; [discriminate|].
        intros [= <-]. right. split; [reflexivity|].
        exists c', z, target, src. auto.
      * rewrite file_iter_tail.
        destruct (t_read_error src) as [e|] eqn:Ht; [|discriminate].
        intros [= <-]. left.
        apply WordlistReadFailed
          with (z := z) (target := target) (src := src); auto.
        intros c Hc. exact (List.find_none _ _ Hf c Hc).
    + intros [= <-]. left.
      now apply WordlistUnopened with (z := z) (target := target).
Qed.

Lemma expected_failed_is_error w zip_path wordlist_path m :
  expected w zip_path wordlist_path = Failed m -> is_error_message m = true.
Proof.
  intros Ho. destruct (expected_failed _ _ _ _ Ho) as [H|[-> _]].
  - now destruct (structural_error_expected w zip_path wordlist_path m H).
  - reflexivity.
Qed.

Lemma exit_code_inv o :
  (exit_code o = 0%Z -> exists c, o = Found c)
  /\ (exit_code o = 1%Z -> o = NotFound)
  /\ (exit_code o = 2%Z -> exists m, o = Failed m).
Proof. destruct o; simpl; repeat split; intros; try discriminate; eauto. Qed.

(** X19.  The first match ends the search.  When the archive is ready and
    the first candidate of the wordlist that some (encoding, capability)
    combination verifies stands at position [k] (counted from 1), exactly
    the first [k] candidates are taken from the wordlist file, and the
    probes made are all attempts of the first [k - 1] candidates followed
    by the attempts of the [k]-th up to its first success.  If standard
    output can encode the candidate, [find_password] returns 0, standard
    output holds the candidate and a newline and nothing else (the
    candidate itself holds no newline, so this is one line) and no error
    line is written.  If it cannot, the [print] raises inside the [try] of
    line 111: nothing is printed, the handler of line 148 writes its line
    and [find_password] returns 2. *)
Theorem first_match_ends_the_search w zip_path wordlist_path verbose z target
    src k c :
  archive_ready w zip_path z target ->
  open_text w wordlist_path = Ok src ->
  1 <= k ->
  nth_error (wordlist_candidates src) (k - 1) = Some c ->
  verifies zip_path z target (capability_of w) c = true ->
  (forall c', In c' (firstn (k - 1) (wordlist_candidates src)) ->
              verifies zip_path z target (capability_of w) c' = false) ->
  exists st',
    find_password w zip_path wordlist_path verbose init_state
    = (Ok (if printable w c then 0%Z else 2%Z), st')
    /\ stdout st' = (if printable w c then c ++ [LF] else [])
    /\ ~ In LF c
    /\ errors (stderr st')
       = (if printable w c then [] else [ErrWordlist encode_error])
    /\ candidates_read (trace st') = firstn k (wordlist_candidates src)
    /\ probes (trace st')
       = flat_map (plan (capability_of w))
           (firstn (k - 1) (wordlist_candidates src))
         ++ upto (verdict zip_path z target (capability_of w))
              (plan (capability_of w) c).
Proof.
  intros Hready Hopen Hk Hnth Hc Hbefore.
  apply archive_ready_prelude in Hready.
  destruct (run_ready w zip_path wordlist_path verbose z target Hready)
    as (err & evs & n & E & D & _ & R & _).
  rewrite Hopen in R. destruct R as [RC RP].
  destruct (find_first _ _ _ c Hnth Hc Hbefore) as (F1 & F2 & F3).
  replace (S (k - 1)) with k in F2, F3 by lia.
  assert (Ho : expected w zip_path wordlist_path
               = if printable w c then Found c
                 else Failed (ErrWordlist encode_error)).
  { unfold expected. rewrite Hready, Hopen. unfold search.
    fold (wordlist_candidates src). now rewrite F1. }
  rewrite Ho in E. clear Ho.
  assert (Hshape : ~ In LF c).
  { apply (candidate_shape src). eapply nth_error_In; eauto. }
  destruct (printable w c); cbn [exit_code output reported] in E;
    (eexists; split; [exact E|]); cbn [stdout stderr trace];
    (split; [reflexivity|]); (split; [exact Hshape|]);
    (split; [now rewrite !errors_app, errors_prelude_debug, D|]);
    destruct (prefix_reads zip_path wordlist_path evs) as [-> ->];
    rewrite RC, RP, F2; (split; [reflexivity|]);
    rewrite F3, flat_map_app; cbn [flat_map]; rewrite app_nil_r;
    f_equal; apply flat_map_upto_all; exact Hbefore.
Qed.

(** X1.  Exit code 0 is sound: the line on standard output is a candidate of
    the wordlist that some probe accepted, and no candidate before it in
    the file was accepted. *)
Theorem exit_0_means_verified w zip_path wordlist_path verbose st' :
  find_password w zip_path wordlist_path verbose init_state = (Ok 0%Z, st') ->
  exists z target src before c after,
    archive_ready w zip_path z target
    /\ open_text w wordlist_path = Ok src
    /\ wordlist_candidates src = before ++ c :: after
    /\ verifies zip_path z target (capability_of w) c = true
    /\ (forall x, In x before ->
                  verifies zip_path z target (capability_of w) x = false)
    /\ stdout st' = c ++ [LF]
    /\ errors (stderr st') = [].
Proof.
  intros Hrun.
  destruct (find_password_run w zip_path wordlist_path verbose)
    as (st & dbg & E & O & R & D & _).
  rewrite Hrun in E. injection E as Hrc <-.
  destruct (proj1 (exit_code_inv _) (eq_sym Hrc)) as [c Ho].
  destruct (expected_found _ _ _ _ Ho)
    as (z & target & src & Hr & Hopen & Hf & _).
  destruct (find_split _ _ _ Hf) as (before & after & Hs & Hc & Hb).
  exists z, target, src, before, c, after.
  rewrite Ho in O, R. cbn [output reported] in O, R.
  rewrite R, app_nil_r. auto 10.
Qed.

(** X2.  Exit code 1 is complete: the wordlist was read to its end and not one
    of its candidates is accepted by any probe. *)
Theorem exit_1_means_no_candidate w zip_path wordlist_path verbose st' :
  find_password w zip_path wordlist_path verbose init_state = (Ok 1%Z, st') ->
  exists z target src,
    archive_ready w zip_path z target
    /\ open_text w wordlist_path = Ok src
    /\ t_read_error src = None
    /\ (forall c, In c (wordlist_candidates src) ->
                  verifies zip_path z target (capability_of w) c = false)
    /\ stdout st' = []
    /\ errors (stderr st') = [].
Proof.
  intros Hrun.
  destruct (find_password_run w zip_path wordlist_path verbose)
    as (st & dbg & E & O & R & D & _).
  rewrite Hrun in E. injection E as Hrc <-.
  pose proof (proj1 (proj2 (exit_code_inv _)) (eq_sym Hrc)) as Ho.
  destruct (expected_not_found _ _ _ Ho)
    as (z & target & src & Hr & Hopen & Hend & Hf).
  exists z, target, src.
  rewrite Ho in O, R. cbn [output reported] in O, R.
  rewrite R, app_nil_r.
  repeat split; auto.
  intros c Hc. exact (List.find_none _ _ Hf c Hc).
Qed.

(** X3.  Exit code 2 always has a cause, and only two kinds of it.  Either
    one of the structural errors holds, or the search found its match and
    standard output could not encode it: the archive is ready, the
    wordlist opened, the first candidate that verifies is outside the
    encoding of standard output, and the exception of the [print] is
    reported by the handler of line 148 as if reading the wordlist had
    failed.  In both cases the line of the error is the last of the error
    stream, the lines before it are debug lines and nothing is on
    standard output. *)
Theorem exit_2_has_a_cause w zip_path wordlist_path verbose st' :
  find_password w zip_path wordlist_path verbose init_state = (Ok 2%Z, st') ->
  exists m dbg,
    (structural_error w zip_path wordlist_path m
     \/ (m = ErrWordlist encode_error
         /\ exists c, match_not_printable w zip_path wordlist_path c))
    /\ stderr st' = dbg ++ [m]
    /\ errors dbg = []
    /\ stdout st' = [].
Proof.
  intros Hrun.
  destruct (find_password_run w zip_path wordlist_path verbose)
    as (st & dbg & E & O & R & D & _).
  rewrite Hrun in E. injection E as Hrc <-.
  destruct (proj2 (proj2 (exit_code_inv _)) (eq_sym Hrc)) as [m Ho].
  exists m, dbg. rewrite Ho in O, R.
  split; [now apply expected_failed|]. auto.
Qed.

(** X4.  The streams of a run.  Standard output is written exactly when the
    exit code is 0; the exit code is 0, 1 or 2; an error line is written
    exactly when it is 2; and a run that is not verbose writes nothing
    else to the error stream. *)
Theorem streams_follow_exit_code w zip_path wordlist_path verbose :
  exists rc st',
    find_password w zip_path wordlist_path verbose init_state = (Ok rc, st')
    /\ (rc = 0 \/ rc = 1 \/ rc = 2)%Z
    /\ (rc = 0%Z <-> stdout st' <> [])
    /\ (rc = 2%Z <-> errors (stderr st') <> [])
    /\ List.length (errors (stderr st')) <= 1
    /\ (verbose = false -> stderr st' = errors (stderr st')).
Proof.
  destruct (find_password_run w zip_path wordlist_path verbose)
    as (st & dbg & E & O & R & D & Q).
  exists (exit_code (expected w zip_path wordlist_path)), st.
  split; [exact E|].
  assert (He : errors (stderr st)
               = reported (expected w zip_path wordlist_path)).
  { rewrite R, errors_app, D. cbn [app].
    destruct (expected w zip_path wordlist_path) as [c| |m] eqn:Ho;
      try reflexivity.
    cbn [reported errors filter].
    now rewrite (expected_failed_is_error _ _ _ _ Ho). }
  rewrite He, O.
  destruct (expected w zip_path wordlist_path) as [c| |m];
    cbn [exit_code output reported List.length].
  - split; [auto|]. split.
    + split; [intros _; now destruct c | reflexivity].
    + split; [split; [discriminate | intros H; now contradiction H]|].
      split; [lia|]. intros Hq. now rewrite R, (Q Hq).
  - split; [auto|]. split.
    + split; [discriminate | intros H; now contradiction H].
    + split; [split; [discriminate | intros H; now contradiction H]|].
      split; [lia|]. intros Hq. now rewrite R, (Q Hq).
  - split; [auto|]. split.
    + split; [discriminate | intros H; now contradiction H].
    + split; [split; [discriminate | reflexivity]|].
      split; [lia|]. intros Hq. now rewrite R, (Q Hq).
Qed.

(** ** Progress lines and clock reads *)

Lemma div_100_step t :
  S t / 100 = t / 100 + (if S t mod 100 =? 0 then 1 else 0).
Proof.
  pose proof (Nat.div_mod_eq t 100) as Ht.
  pose proof (Nat.mod_upper_bound t 100 ltac:(lia)) as Hr.
  destruct (Nat.eq_dec (t mod 100) 99) as [E|E].
  - assert (Hq : S t / 100 = t / 100 + 1)
      by (symmetry; apply (Nat.div_unique (S t) 100 (t / 100 + 1) 0); lia).
    assert (Hm : S t mod 100 = 0)
      by (symmetry; apply (Nat.mod_unique (S t) 100 (t / 100 + 1) 0); lia).
    now rewrite Hq, Hm.
  - assert (Hq : S t / 100 = t / 100)
      by (symmetry;
          apply (Nat.div_unique (S t) 100 (t / 100) (S (t mod 100))); lia).
    assert (Hm : S t mod 100 = S (t mod 100))
      by (symmetry;
          apply (Nat.mod_unique (S t) 100 (t / 100) (S (t mod 100))); lia).
    rewrite Hq, Hm. simpl. lia.
Qed.

Lemma div_100_mono a b : a <= b -> a / 100 <= b / 100.
Proof. intros H. apply Nat.Div0.div_le_mono. exact H. Qed.

Lemma progress_from_0 w start tried ticks :
  progress_from w start tried ticks 0 = [].
Proof. unfold progress_from. now rewrite Nat.add_0_r, Nat.sub_diag. Qed.

Lemma progress_from_step w start tried ticks failed :
  progress_from w start tried ticks (S failed)
  = if S tried mod 100 =? 0
    then DbgProgress (S tried) (clock w ticks) start
         :: progress_from w start (S tried) (S ticks) failed
    else progress_from w start (S tried) ticks failed.
Proof.
  unfold progress_from.
  replace (tried + S failed) with (S tried + failed) by lia.
  pose proof (div_100_step tried) as Hs.
  pose proof (div_100_mono (S tried) (S tried + failed) ltac:(lia)) as Hm.
  destruct (S tried mod 100 =? 0) eqn:E.
  - apply Nat.eqb_eq in E.
    pose proof (Nat.div_mod_eq (S tried) 100) as Hd.
    replace ((S tried + failed) / 100 - tried / 100)
      with (S ((S tried + failed) / 100 - S tried / 100)) by lia.
    cbn [seq map]. f_equal.
    + f_equal; [lia | f_equal; lia].
    + rewrite <- seq_shift, map_map. apply map_ext. intros i.
      f_equal; [lia | f_equal; lia].
  - replace (S tried / 100) with (tried / 100) by lia. reflexivity.
Qed.

(** The scanning loop once more, for the error stream and the clock: the
    progress lines are those of [progress_from] and each costs one clock
    read. *)
Lemma scan_lines_report w zip_path verbose start z member pz lines tail :
  forall pre tried st,
  exists r st',
    scan w zip_path verbose start z member pz (lines_gen pre lines tail)
      tried st = (r, st')
    /\ stderr st'
       = stderr st
         ++ (if verbose
             then progress_from w start tried (ticks st)
                    (failures (verifies zip_path z member pz)
                       (candidates_of lines))
             else [])
    /\ ticks st'
       = ticks st
         + (if verbose
            then (tried + failures (verifies zip_path z member pz)
                            (candidates_of lines)) / 100 - tried / 100
            else 0).
Proof.
  induction lines as [|line more IH]; intros pre tried st.
  - cbn [lines_gen candidates_of map filter find failures].
    rewrite progress_from_0.
    replace (tried + 0) with tried by lia. rewrite Nat.sub_diag.
    destruct tail as [e|]; cbn [scan]; rewrite bind_run, log_run;
      unfold ret, raise;
      eexists _, _;
      (split; [reflexivity|]); cbn [stderr ticks trace extend];
      destruct verbose; rewrite ?app_nil_r, ?Nat.add_0_r;
      split; reflexivity.
  - cbn [lines_gen]. rewrite candidates_of_cons.
    destruct (truthy (rstrip line)) eqn:Ht.
    + cbn [scan find failures]. rewrite Ht. cbn [negb].
      rewrite bind_run, log_run, bind_run. unfold attempt.
      destruct (try_encodings_run w zip_path z member pz [UTF8; Latin1]
                  (rstrip line)
                  (extend st [] [] (pre ++ [EvReadLine line]) 0))
        as (evs1 & E1 & P1 & F1).
      rewrite E1. fold (plan pz (rstrip line)) in *.
      fold (verifies zip_path z member pz (rstrip line)) in *.
      destruct (verifies zip_path z member pz (rstrip line)) eqn:Hv.
      * rewrite progress_from_0.
        replace (tried + 0) with tried by lia. rewrite Nat.sub_diag.
        destruct (printable w (rstrip line));
          rewrite bind_run, log_run; unfold ret, raise;
          eexists _, _; (split; [reflexivity|]);
          cbn [stderr ticks trace extend];
          destruct verbose; rewrite ?app_nil_r, ?Nat.add_0_r;
          split; reflexivity.
      * cbn [andb]. rewrite bind_run. unfold when.
        destruct (verbose && (S tried mod 100 =? 0)) eqn:Hb.
        -- apply andb_prop in Hb as [-> Hm].
           rewrite bind_run, time_time_run, print_err_run, !extend_extend.
           match goal with
           | |- context [scan _ _ _ _ _ _ _ _ _ ?s] =>
               destruct (IH [] (S tried) s) as (r & st' & E3 & R3 & T3)
           end.
           exists r, st'.
           split; [exact E3|].
           cbn [stderr ticks trace extend app] in R3, T3.
           rewrite progress_from_step, Hm.
           rewrite R3, T3.
           pose proof (div_100_step tried) as Hs. rewrite Hm in Hs.
           pose proof (div_100_mono (S tried)
                         (S tried + failures (verifies zip_path z member pz)
                                      (candidates_of more)) ltac:(lia)) as Hd.
           replace (tried + S (failures (verifies zip_path z member pz)
                                 (candidates_of more)))
             with (S tried + failures (verifies zip_path z member pz)
                               (candidates_of more)) by lia.
           rewrite ?Nat.add_0_r, ?app_nil_r, <- ?app_assoc.
           cbn [app].
           cbn [Nat.add] in Hd |- *.
           replace (ticks st + 1) with (S (ticks st)) by lia.
           split; [reflexivity|lia].
        -- unfold ret.
           match goal with
           | |- context [scan _ _ _ _ _ _ _ _ _ ?s] =>
               destruct (IH [] (S tried) s) as (r & st' & E3 & R3 & T3)
           end.
           exists r, st'.
           split; [exact E3|].
           cbn [stderr ticks trace extend app] in R3, T3.
           rewrite R3, T3.
           rewrite ?Nat.add_0_r, ?app_nil_r, <- ?app_assoc.
           replace (tried + S (failures (verifies zip_path z member pz)
                                 (candidates_of more)))
             with (S tried + failures (verifies zip_path z member pz)
                               (candidates_of more)) by lia.
           destruct verbose; [|split; reflexivity].
           cbn [andb] in Hb. rewrite progress_from_step, Hb.
           pose proof (div_100_step tried) as Hs. rewrite Hb in Hs.
           replace (S tried / 100) with (tried / 100) in * by lia.
           split; reflexivity.
    + destruct (IH (pre ++ [EvReadLine line]) tried st)
        as (r & st' & E3 & R3 & T3).
      exists r, st'. split; [exact E3|]. rewrite R3, T3. auto.
Qed.

Lemma progress_from_start w start failed :
  progress_from w start 0 1 failed
  = map (fun i => DbgProgress (100 * S i) (clock w (S i)) start)
      (seq 0 (failed / 100)).
Proof.
  unfold progress_from. cbn [Nat.add]. rewrite Nat.Div0.div_0_l, Nat.sub_0_r.
  apply map_ext. intros i. reflexivity.
Qed.

(** A run with the archive ready and the wordlist open: the error stream
    and the clock. *)
Lemma run_ready_report w zip_path wordlist_path verbose z target src :
  prelude w zip_path = Ready z target ->
  open_text w wordlist_path = Ok src ->
  exists st',
    find_password w zip_path wordlist_path verbose init_state
    = (Ok (exit_code (expected w zip_path wordlist_path)), st')
    /\ stderr st'
       = prelude_debug w verbose target
         ++ (if verbose
             then map (fun i => DbgProgress (100 * S i) (clock w (S i))
                                  (clock w 0))
                    (seq 0 (failures
                              (verifies zip_path z target (capability_of w))
                              (wordlist_candidates src) / 100))
             else [])
         ++ reported (expected w zip_path wordlist_path)
    /\ ticks st'
       = 1 + (if verbose
              then failures (verifies zip_path z target (capability_of w))
                     (wordlist_candidates src) / 100
              else 0).
Proof.
  intros Hp Hopen.
  rewrite (run_ready_scan w zip_path wordlist_path verbose z target Hp).
  unfold expected, iter_wordlist, wordlist_candidates, search.
  rewrite Hp, Hopen.
  destruct (file_iter src) as [lines tail]. cbn [fst snd].
  match goal with
  | |- context [scan _ _ _ ?s _ _ _ _ _ ?st] =>
      destruct (scan_lines_run w zip_path verbose s z target
                  (capability_of w) lines tail
                  [EvOpenText wordlist_path] 0 st)
        as (err & evs & n & E & _);
      destruct (scan_lines_report w zip_path verbose s z target
                  (capability_of w) lines tail
                  [EvOpenText wordlist_path] 0 st)
        as (r & st' & E' & R & T)
  end.
  rewrite E'. rewrite E' in E. injection E as Hres _. clear E'.
  cbn [stderr ticks trace] in R, T.
  rewrite progress_from_start in R.
  rewrite Nat.Div0.div_0_l, Nat.sub_0_r in T. cbn [Nat.add] in T.
  assert (Ht : ticks st'
               = 1 + (if verbose
                      then failures
                             (verifies zip_path z target (capability_of w))
                             (candidates_of lines) / 100
                      else 0))
    by (rewrite T; now destruct verbose).
  destruct (find _ (candidates_of lines)) as [c|];
    [destruct (printable w c)|destruct tail as [e|]]; subst r;
    (eexists; split; [reflexivity|]);
    cbn [reported exit_code stderr ticks trace extend wordlist_error_message
         isinstance exn_cls encode_error exn_class_eqb];
    rewrite R, Ht, ?app_nil_r, ?Nat.add_0_r, <- ?app_assoc;
    split; reflexivity.
Qed.

(** X6.  Progress in a verbose run (lines 137-140).  With [f] the number of
    candidates that failed before the run ended, the error stream holds,
    between the two debug lines of the prelude and the error line if
    there is one, exactly [f / 100] progress lines: the [i]-th reports
    [100 * i] candidates tried and the [i]-th reading of the clock after
    the one taken at the start.  The clock is read [1 + f / 100] times; a
    run that is not verbose reads it once and writes no progress. *)
Theorem progress_every_100_candidates w zip_path wordlist_path verbose z
    target src :
  archive_ready w zip_path z target ->
  open_text w wordlist_path = Ok src ->
  exists rc st',
    find_password w zip_path wordlist_path verbose init_state = (Ok rc, st')
    /\ stderr st'
       = prelude_debug w verbose target
         ++ (if verbose
             then map (fun i => DbgProgress (100 * S i) (clock w (S i))
                                  (clock w 0))
                    (seq 0 (failures
                              (verifies zip_path z target (capability_of w))
                              (wordlist_candidates src) / 100))
             else [])
         ++ reported (expected w zip_path wordlist_path)
    /\ ticks st'
       = 1 + (if verbose
              then failures (verifies zip_path z target (capability_of w))
                     (wordlist_candidates src) / 100
              else 0).
Proof.
  intros Hr Hopen. apply archive_ready_prelude in Hr.
  destruct (run_ready_report w zip_path wordlist_path verbose z target src
              Hr Hopen) as (st' & E & R & T).
  eauto.
Qed.

(** X7.  The wordlist file is closed on every path that opened it.  The
    file is opened inside the generator, in a [with] block.  A run that
    opens it -- whether it then finds the password, exhausts the file,
    meets a read failure or fails to print its match -- closes it exactly
    once, after the last line read and the last probe, and just before
    the archive is released: at the end of the generator by the exit of
    the [with] block, and on a [return] or an exception inside the loop
    by the finalisation of the suspended generator.  A run that does not
    get to open the file closes no such file. *)
Theorem wordlist_closed_on_every_path w zip_path wordlist_path verbose :
  exists rc st',
    find_password w zip_path wordlist_path verbose init_state = (Ok rc, st')
    /\ (forall z target src,
          archive_ready w zip_path z target ->
          open_text w wordlist_path = Ok src ->
          exists body,
            trace st' = body ++ [EvClose HWordlist; EvClose HArchive]
            /\ filter closes_wordlist body = []
            /\ texts_opened body = [wordlist_path])
    /\ ((forall src, open_text w wordlist_path <> Ok src)
        \/ (forall z target, ~ archive_ready w zip_path z target) ->
        filter closes_wordlist (trace st') = []).
Proof.
  destruct (prelude w zip_path) as [m|m|z target] eqn:Hp.
  - rewrite (run_no_archive w zip_path wordlist_path verbose m Hp).
    eexists _, _. split; [reflexivity|]. cbn [trace]. split.
    + intros z target src Hr _. apply archive_ready_prelude in Hr.
      congruence.
    + reflexivity.
  - rewrite (run_no_target w zip_path wordlist_path verbose m Hp).
    eexists _, _. split; [reflexivity|]. cbn [trace]. split.
    + intros z target src Hr _. apply archive_ready_prelude in Hr.
      congruence.
    + reflexivity.
  - destruct (run_ready w zip_path wordlist_path verbose z target Hp)
      as (err & evs & k & E & _ & _ & R & F & K).
    eexists _, _. split; [exact E|]. cbn [trace]. split.
    + intros z' target' src _ Hopen.
      destruct (K src Hopen) as (body & -> & Kb).
      exists ([EvTime; EvZipFile zip_path; EvNamelist; EvImportPyzipper;
               EvOpenText wordlist_path] ++ body).
      split; [now rewrite <- !app_assoc|].
      split; [exact Kb|].
      rewrite forallb_app in F. apply andb_prop in F as [Fb _].
      destruct (scan_events_facts target body Fb) as (_ & T & _).
      cbn [app texts_opened]. now rewrite T.
    + intros [Hno|Hno].
      * destruct (open_text w wordlist_path) as [src|e] eqn:Hopen;
          [now contradiction (Hno src)|].
        subst evs. reflexivity.
      * contradiction (Hno z target). now apply archive_ready_prelude.
Qed.

(** ** How many probes *)

Lemma upto_length {A} (p : A -> bool) l : List.length (upto p l) <= List.length l.
Proof.
  induction l as [|a l IH]; simpl; [lia|].
  destruct (p a); simpl; lia.
Qed.

Lemma capabilities_length pz :
  List.length (capabilities pz) <= 2
  /\ (pz = None -> List.length (capabilities pz) = 1).
Proof. destruct pz; simpl; split; auto; discriminate. Qed.

Lemma plan_length pz c :
  List.length (plan pz c) <= 2 * List.length (capabilities pz).
Proof.
  unfold plan, plan_of. cbn [flat_map]. rewrite !length_app.
  destruct (str_encode UTF8 c), (str_encode Latin1 c);
    rewrite ?length_map; simpl; lia.
Qed.

Lemma flat_map_length_bound {A B} (f : A -> list B) k l :
  (forall a, List.length (f a) <= k) ->
  List.length (flat_map f l) <= k * List.length l.
Proof.
  intros H. induction l as [|a l IH]; simpl; [lia|].
  rewrite length_app. specialize (H a). nia.
Qed.

(** X8.  No candidate is probed more than four times -- two encodings, two
    readers -- and no more than twice when pyzipper is not installed: the
    number of probes of a run is bounded by the number of candidates
    taken from the wordlist. *)
Theorem probes_bounded_by_candidates w zip_path wordlist_path verbose z
    target src :
  archive_ready w zip_path z target ->
  open_text w wordlist_path = Ok src ->
  exists rc st',
    find_password w zip_path wordlist_path verbose init_state = (Ok rc, st')
    /\ List.length (probes (trace st'))
       <= 4 * List.length (candidates_read (trace st'))
    /\ (capability_of w = None ->
        List.length (probes (trace st'))
        <= 2 * List.length (candidates_read (trace st'))
        /\ Forall (fun a => fst a = Primary) (probes (trace st')))
    /\ List.length (candidates_read (trace st'))
       <= List.length (wordlist_candidates src).
Proof.
  intros Hr Hopen. apply archive_ready_prelude in Hr.
  destruct (run_ready w zip_path wordlist_path verbose z target Hr)
    as (err & evs & n & E & _ & _ & R & _).
  rewrite Hopen in R. destruct R as [RC RP].
  eexists _, _. split; [exact E|]. cbn [trace].
  destruct (prefix_reads zip_path wordlist_path evs) as [-> ->].
  rewrite RC, RP.
  pose proof (capabilities_length (capability_of w)) as [Hc2 Hc1].
  split; [|split].
  - apply flat_map_length_bound. intros c.
    pose proof (upto_length (verdict zip_path z target (capability_of w))
                  (plan (capability_of w) c)).
    pose proof (plan_length (capability_of w) c). lia.
  - intros Hnone. split.
    + apply flat_map_length_bound. intros c.
      pose proof (upto_length (verdict zip_path z target (capability_of w))
                    (plan (capability_of w) c)).
      pose proof (plan_length (capability_of w) c).
      specialize (Hc1 Hnone). lia.
    + apply Forall_forall. intros a Ha.
      apply in_flat_map in Ha as (c & _ & Ha).
      assert (Hin : In a (plan (capability_of w) c)).
      { clear -Ha. revert Ha.
        generalize (plan (capability_of w) c) as l.
        induction l as [|x l IH]; simpl; [tauto|].
        intros [<-|H]; [now left|].
        destruct (verdict zip_path z target (capability_of w) x);
          [destruct H | right; auto]. }
      rewrite plan_attempts, Hnone in Hin. cbn [flat_map] in Hin.
      rewrite app_nil_r in Hin. apply in_app_or in Hin.
      destruct Hin as [Hin|Hin];
        [destruct (str_encode UTF8 c) | destruct (str_encode Latin1 c)];
        simpl in Hin; intuition (subst; reflexivity).
  - apply upto_length.
Qed.

(** ** When the Latin-1 pass matters *)

Lemma encode_ascii enc c :
  forallb (fun x => x <? 0x80)%N c = true ->
  str_encode enc c = Ok (map byte_of_N c).
Proof.
  induction c as [|x c IH]; simpl; [reflexivity|].
  intros H. apply andb_prop in H as [Hx Hc]. rewrite (IH Hc).
  assert (Hx' : (x <? 0x100)%N = true).
  { apply N.ltb_lt in Hx. apply N.ltb_lt. lia. }
  destruct enc; unfold encode_char, utf8_encode_char, latin1_encode_char;
    rewrite ?Hx, ?Hx'; reflexivity.
Qed.

Lemma latin1_raises c :
  existsb (fun x => 0xFF <? x)%N c = true ->
  exists e, str_encode Latin1 c = Raise e.
Proof.
  induction c as [|x c IH]; simpl; [discriminate|].
  unfold latin1_encode_char.
  destruct (N.ltb_spec x 0x100) as [Hlt|Hge].
  - assert (Hx : (0xFF <? x)%N = false) by (apply N.ltb_ge; lia).
    rewrite Hx. simpl. intros H. destruct (IH H) as [e ->]. eauto.
  - eauto.
Qed.

Lemma ascii_or_high c :
  forallb (fun x => (x <? 0x80) || (0xFF <? x))%N c = true ->
  existsb (fun x => 0xFF <? x)%N c = false ->
  forallb (fun x => x <? 0x80)%N c = true.
Proof.
  induction c as [|x c IH]; simpl; [reflexivity|].
  intros H1 H2. apply andb_prop in H1 as [Hx Hc].
  apply orb_false_elim in H2 as [Hh Hr].
  rewrite Hh, orb_false_r in Hx. rewrite Hx. now apply IH.
Qed.

(** X20.  For one candidate the attempts are made in a fixed order: the
    UTF-8 bytes before the Latin-1 bytes and, for each, the built-in probe
    before the pyzipper probe, which is entered only when the module was
    imported and the built-in probe returned false.  An encoding that
    raises contributes no attempt and leaves no trace on either stream;
    the other encoding is still tried.  The probes entered are the planned
    attempts up to the first that succeeds, whatever standard output can
    encode.  The loop runs to its end exactly when no attempt succeeds.
    When one succeeds the loop stops there: the candidate is printed and 0
    returned if standard output takes the candidate, and the exception of
    the [print] leaves the loop if it does not.  A candidate whose Latin-1
    bytes open the member never falls through the loop, whatever became of
    its UTF-8 attempt. *)
Theorem attempts_in_fixed_order w zip_path z member pz c st :
  let V := verdict zip_path z member pz in
  let attempts enc :=
    match str_encode enc c with
    | Raise _ => []
    | Ok b =>
        (Primary, b) :: match pz with
                        | Some _ => [(Secondary, b)]
                        | None => []
                        end
    end in
  exists r evs,
    try_encodings w zip_path z member pz [UTF8; Latin1] c st
    = (r,
       extend st (match r with Ok (Some _) => c ++ [LF] | _ => [] end) []
         evs 0)
    /\ probes evs = upto V (attempts UTF8 ++ attempts Latin1)
    /\ (r = Ok None <-> existsb V (attempts UTF8 ++ attempts Latin1) = false)
    /\ (r = Ok (Some 0%Z) <->
        existsb V (attempts UTF8 ++ attempts Latin1) = true
        /\ printable w c = true)
    /\ (r = Raise encode_error <->
        existsb V (attempts UTF8 ++ attempts Latin1) = true
        /\ printable w c = false)
    /\ (forall b, str_encode Latin1 c = Ok b ->
                  primary_ok z member b = true -> r <> Ok None).
Proof.
  cbv zeta.
  destruct (try_encodings_run w zip_path z member pz [UTF8; Latin1] c st)
    as (evs & E & P & _).
  fold (plan pz c) in E, P. rewrite plan_attempts in E, P.
  cbn [flat_map] in E, P. rewrite app_nil_r in E, P.
  match type of P with
  | _ = upto _ ?l => set (attempts := l) in *
  end.
  assert (HL : forall b, str_encode Latin1 c = Ok b ->
                         primary_ok z member b = true ->
                         existsb (verdict zip_path z member pz) attempts = true).
  { intros b Hb Hok. apply existsb_exists. exists (Primary, b). split.
    - subst attempts. apply in_or_app. right. rewrite Hb. now left.
    - exact Hok. }
  destruct (existsb (verdict zip_path z member pz) attempts) eqn:Hx;
    [destruct (printable w c) eqn:Hpr|]; cbn [andb] in E.
  - exists (Ok (Some 0%Z)), evs.
    split; [exact E|]. split; [exact P|].
    split; [split; discriminate|].
    split; [split; auto|].
    split; [split; [discriminate|intros [_ H]; discriminate]|].
    discriminate.
  - exists (Raise encode_error), evs.
    split; [exact E|]. split; [exact P|].
    split; [split; discriminate|].
    split; [split; [discriminate|intros [_ H]; discriminate]|].
    split; [split; auto|].
    discriminate.
  - exists (Ok None), evs.
    split; [exact E|]. split; [exact P|].
    split; [split; auto|].
    split; [split; [discriminate|intros [H _]; discriminate]|].
    split; [split; [discriminate|intros [H _]; discriminate]|].
    intros b Hb Hok. specialize (HL b Hb Hok). discriminate.
Qed.

(** X10.  The Latin-1 pass of the inner loop can change the result only for a
    candidate with a code point between U+0080 and U+00FF.  For any other
    candidate the loop over both encodings returns and prints what the
    loop over UTF-8 alone would: an ASCII candidate is probed again with
    the very same bytes, and a candidate with a code point above U+00FF
    has no Latin-1 bytes. *)
Theorem latin1_pass_only_for_high_latin w zip_path z member pz c st :
  forallb (fun x => (x <? 0x80) || (0xFF <? x))%N c = true ->
  fst (try_encodings w zip_path z member pz [UTF8; Latin1] c st)
  = fst (try_encodings w zip_path z member pz [UTF8] c st)
  /\ stdout (snd (try_encodings w zip_path z member pz [UTF8; Latin1] c st))
     = stdout (snd (try_encodings w zip_path z member pz [UTF8] c st)).
Proof.
  intros Hc.
  destruct (try_encodings_run w zip_path z member pz [UTF8; Latin1] c st)
    as (evs2 & E2 & _).
  destruct (try_encodings_run w zip_path z member pz [UTF8] c st)
    as (evs1 & E1 & _).
  rewrite E1, E2. cbn [fst snd stdout extend].
  assert (H : existsb (verdict zip_path z member pz)
                (plan_of pz [UTF8; Latin1] c)
              = existsb (verdict zip_path z member pz)
                  (plan_of pz [UTF8] c)).
  { rewrite !plan_of_cons. unfold plan_of at 1 2. cbn [flat_map].
    rewrite !app_nil_r.
    destruct (existsb (fun x => 0xFF <? x)%N c) eqn:Hh.
    - destruct (latin1_raises c Hh) as [e ->]. now rewrite app_nil_r.
    - pose proof (ascii_or_high c Hc Hh) as Ha.
      rewrite (encode_ascii UTF8 c Ha), (encode_ascii Latin1 c Ha).
      rewrite existsb_app. apply orb_diag. }
  rewrite H. split; reflexivity.
Qed.

(** ** Handles inside the probes *)

(** X11.  A probe closes what it opened before it returns, also when the read
    raises: the member handle after the read was tried, the pyzipper
    reader after the member was tried, whether or not it opened. *)
Theorem probes_close_their_handles z zip_path member pwd pz st :
  (forall fh,
     a_open z member pwd = Ok fh ->
     trace (snd (try_zipfile_open z member pwd st))
     = trace st ++ [EvTryZipfileOpen member pwd; EvOpenMember member pwd;
                    EvRead HMember; EvClose HMember])
  /\ (forall e,
        a_open z member pwd = Raise e ->
        trace (snd (try_zipfile_open z member pwd st))
        = trace st ++ [EvTryZipfileOpen member pwd; EvOpenMember member pwd])
  /\ (forall z2 fh,
        pz_AESZipFile pz zip_path = Ok z2 ->
        z2_open z2 member pwd = Ok fh ->
        trace (snd (try_pyzipper zip_path member pwd pz st))
        = trace st ++ [EvTryPyzipper zip_path member pwd;
                       EvAESZipFile zip_path; EvAESOpenMember member pwd;
                       EvRead HAesMember; EvClose HAesMember;
                       EvClose HAesArchive])
  /\ (forall z2 e,
        pz_AESZipFile pz zip_path = Ok z2 ->
        z2_open z2 member pwd = Raise e ->
        trace (snd (try_pyzipper zip_path member pwd pz st))
        = trace st ++ [EvTryPyzipper zip_path member pwd;
                       EvAESZipFile zip_path; EvAESOpenMember member pwd;
                       EvClose HAesArchive])
  /\ (forall e,
        pz_AESZipFile pz zip_path = Raise e ->
        trace (snd (try_pyzipper zip_path member pwd pz st))
        = trace st ++ [EvTryPyzipper zip_path member pwd;
                       EvAESZipFile zip_path]).
Proof.
  unfold try_zipfile_open, try_pyzipper, zip_open, AESZipFile, aes_open,
    read1, bind, catch, with_handle, lift, ret, raise.
  repeat split.
  - intros fh ->. step_run.
    destruct (fh_read fh), (fh_close fh); step_run; split_handlers;
      reflexivity.
  - intros e ->. step_run. split_handlers; reflexivity.
  - intros z2 fh -> . step_run. intros ->. step_run.
    destruct (fh_read fh), (fh_close fh), (z2_close z2); step_run;
      split_handlers; reflexivity.
  - intros z2 e ->. step_run. intros ->. step_run.
    destruct (z2_close z2); step_run; split_handlers; reflexivity.
  - intros e ->. step_run. split_handlers; reflexivity.
Qed.

(** ** Text mode: lines and line ends *)

Lemma translate_no_cr_aux s :
  ~ In CR (translate_newlines s)
  /\ forall c, ~ In CR (translate_newlines (c :: s)).
Proof.
  induction s as [|c' rest [IH1 IH2]].
  - split; [simpl; tauto|]. intros c. simpl.
    destruct (N.eqb_spec c CR) as [->|Hc]; simpl; intros [H|H];
      try discriminate; try congruence; auto.
  - split; [apply IH2|]. intros c. cbn [translate_newlines].
    destruct (N.eqb_spec c CR) as [->|Hc].
    + destruct (c' =? LF)%N; intros [H|H]; try discriminate.
      * now apply IH1.
      * now apply (IH2 c').
    + intros [H|H]; [congruence|]. now apply (IH2 c').
Qed.

Lemma translate_no_cr s : ~ In CR (translate_newlines s).
Proof. apply translate_no_cr_aux. Qed.

Lemma readlines_chars s l x : In l (readlines s) -> In x l -> In x s.
Proof.
  revert l. induction s as [|c rest IH]; simpl; [tauto|]. intros l.
  destruct (c =? LF)%N eqn:Hc.
  - intros [<-|Hl] Hx.
    + destruct Hx as [<-|[]]. apply N.eqb_eq in Hc. now left.
    + right. eauto.
  - destruct (readlines rest) as [|l0 ls] eqn:Hr.
    + intros [<-|[]] [<-|[]]. now left.
    + intros [<-|Hl] Hx.
      * destruct Hx as [<-|Hx]; [now left|]. right.
        apply (IH l0); [now left | exact Hx].
      * right. apply (IH l); [now right | exact Hx].
Qed.

Lemma readlines_concat s : List.concat (readlines s) = s.
Proof.
  induction s as [|c rest IH]; simpl; [reflexivity|].
  destruct (N.eqb_spec c LF) as [->|Hc].
  - simpl. now rewrite IH.
  - destruct (readlines rest) as [|l ls]; simpl in *; now rewrite <- IH.
Qed.

Lemma readlines_nonempty s : Forall (fun l => l <> []) (readlines s).
Proof.
  induction s as [|c rest IH]; simpl; [constructor|].
  destruct (c =? LF)%N; [constructor; [discriminate|exact IH]|].
  destruct (readlines rest) as [|l ls].
  - repeat constructor. discriminate.
  - inversion IH; subst. constructor; [discriminate|assumption].
Qed.

(** X13.  Splitting the text into lines loses and adds nothing: the lines put
    end to end are the text, no line is empty and a line feed stands
    nowhere but at the end of a line. *)
Theorem readlines_partitions_text s :
  List.concat (readlines s) = s
  /\ Forall (fun l => l <> [] /\ ~ In LF (removelast l)) (readlines s).
Proof.
  split; [apply readlines_concat|].
  pose proof (readlines_nonempty s) as H1.
  pose proof (readlines_body s) as H2.
  rewrite Forall_forall in *. intros l Hl. split; auto.
Qed.

Lemma file_iter_translated src :
  exists text, incl (fst (file_iter src)) (readlines (translate_newlines text)).
Proof.
  unfold file_iter.
  destruct (utf8_decode Ignore (t_bytes src)) as [text|e].
  - destruct (t_read_error src) as [e|]; cbn [fst].
    + eexists. intros l Hl. apply filter_In in Hl. exact (proj1 Hl).
    + eexists. apply incl_refl.
  - exists []. cbn [fst]. intros l [].
Qed.

Lemma line_no_cr src line : In line (fst (file_iter src)) -> ~ In CR line.
Proof.
  intros Hin H.
  destruct (file_iter_translated src) as [text Hincl].
  apply (translate_no_cr text). eapply readlines_chars; eauto.
Qed.

Lemma rstrip_keeps_line src line :
  In line (fst (file_iter src)) ->
  line = rstrip line \/ line = rstrip line ++ [LF].
Proof.
  intros Hin. pose proof (line_no_cr src line Hin) as Hcr.
  destruct (file_iter_translated src) as [text Hincl].
  apply Hincl in Hin.
  pose proof (readlines_body (translate_newlines text)) as Hb.
  rewrite Forall_forall in Hb. specialize (Hb line Hin).
  destruct (rstrip_junk line) as (junk & Hj & Hall).
  destruct junk as [|j [|j' js]].
  - left. now rewrite app_nil_r in Hj.
  - right. simpl in Hall. rewrite andb_true_r in Hall.
    unfold is_eol in Hall. apply orb_prop in Hall as [H|H];
      apply N.eqb_eq in H; subst j; [exact Hj|].
    exfalso. apply Hcr. rewrite Hj. apply in_or_app. right. now left.
  - exfalso. simpl in Hall. apply andb_prop in Hall as [Hjl _].
    assert (Hjin : In j (removelast line)).
    { rewrite Hj, removelast_app by discriminate.
      apply in_or_app. right. now left. }
    unfold is_eol in Hjl. apply orb_prop in Hjl as [H|H];
      apply N.eqb_eq in H; subst j.
    + now apply Hb.
    + apply Hcr. rewrite Hj. apply in_or_app. right. now left.
Qed.

(** X12.  In text mode no carriage return reaches the script: every line
    the wordlist file delivers is free of them, whatever the bytes of the
    file, and [rstrip('\n\r')] takes off the final line feed of the line
    and nothing else.  A candidate holds neither a carriage return nor a
    line feed. *)
Theorem rstrip_removes_one_line_feed src line :
  In line (fst (file_iter src)) ->
  ~ In CR line
  /\ (line = rstrip line \/ line = rstrip line ++ [LF])
  /\ (truthy (rstrip line) = true ->
      In (rstrip line) (wordlist_candidates src)
      /\ ~ In CR (rstrip line) /\ ~ In LF (rstrip line)).
Proof.
  intros Hin. pose proof (line_no_cr src line Hin) as Hcr.
  split; [exact Hcr|]. split; [now apply (rstrip_keeps_line src)|].
  intros Ht.
  assert (Hc : In (rstrip line) (wordlist_candidates src)).
  { unfold wordlist_candidates, candidates_of. apply filter_In.
    split; [now apply in_map | exact Ht]. }
  split; [exact Hc|]. split.
  - intros H. apply Hcr. destruct (rstrip_junk line) as (junk & Hj & _).
    rewrite Hj. apply in_or_app. now left.
  - exact (proj2 (candidate_shape src (rstrip line) Hc)).
Qed.

(** ** Decoding a well-formed file *)

Lemma strict_then_ignore st bs s :
  utf8_decode_from Strict st bs = Ok s ->
  utf8_decode_from Ignore st bs = Ok s.
Proof.
  revert st s. induction bs as [|b rest IH]; intros st s.
  - destruct st; simpl; [discriminate | auto].
  - cbn [utf8_decode_from].
    assert (Hfresh :
              match utf8_start (Byte.to_N b) with
              | SChar c => cons_ok c (utf8_decode_from Strict None rest)
              | SLead p => utf8_decode_from Strict (Some p) rest
              | SInvalid => on_error Strict (utf8_decode_from Strict None rest)
              end = Ok s ->
              match utf8_start (Byte.to_N b) with
              | SChar c => cons_ok c (utf8_decode_from Ignore None rest)
              | SLead p => utf8_decode_from Ignore (Some p) rest
              | SInvalid => on_error Ignore (utf8_decode_from Ignore None rest)
              end = Ok s).
    { destruct (utf8_start (Byte.to_N b)) as [c|p|]; simpl;
        [|apply IH|discriminate].
      destruct (utf8_decode_from Strict None rest) as [s'|e] eqn:E;
        [|discriminate].
      now rewrite (IH None s' E). }
    destruct st as [p|]; [|exact Hfresh].
    destruct (accepts p (Byte.to_N b)); [|simpl; discriminate].
    destruct (p_need p) as [|[|n]]; try apply IH;
      destruct (utf8_decode_from Strict None rest) as [s'|e] eqn:E;
      try discriminate; now rewrite (IH None s' E).
Qed.

(** X14.  For a wordlist that is well-formed UTF-8 the handler
    [errors='ignore'] changes nothing: the text read is the text a strict
    decoder gives, and the lines delivered are the lines of that text. *)
Theorem ignore_agrees_on_valid_utf8 src text :
  utf8_decode Strict (t_bytes src) = Ok text ->
  utf8_decode Ignore (t_bytes src) = Ok text
  /\ (t_read_error src = None ->
      fst (file_iter src) = readlines (translate_newlines text)
      /\ wordlist_candidates src
         = filter truthy (map rstrip (readlines (translate_newlines text)))).
Proof.
  intros Hdec.
  assert (Hi : utf8_decode Ignore (t_bytes src) = Ok text)
    by (apply strict_then_ignore; exact Hdec).
  split; [exact Hi|]. intros Hend.
  unfold wordlist_candidates, candidates_of, file_iter.
  rewrite Hi, Hend. split; reflexivity.
Qed.

(** ** UTF-8: bits as arithmetic *)

Local Open Scope N_scope.

Ltac dm := zify; Z.to_euclidean_division_equations; lia.

Lemma land_shiftl_small a k l : l < 2 ^ k -> N.land (N.shiftl a k) l = 0.
Proof.
  intros Hl. apply N.bits_inj_0. intros m. rewrite N.land_spec.
  destruct (N.lt_ge_cases m k) as [Hm|Hm].
  - now rewrite N.shiftl_spec_low.
  - destruct (N.eq_dec l 0) as [->|Hz]; [now rewrite N.bits_0, andb_false_r|].
    rewrite (N.bits_above_log2 l m), andb_false_r; [reflexivity|].
    apply N.log2_lt_pow2; [lia|].
    apply N.lt_le_trans with (2 ^ k); [exact Hl|].
    apply N.pow_le_mono_r; lia.
Qed.

Lemma lor_shiftl_add a k l :
  l < 2 ^ k -> N.lor (N.shiftl a k) l = a * 2 ^ k + l.
Proof.
  intros Hl. rewrite <- N.lxor_lor, <- N.add_nocarry_lxor, N.shiftl_mul_pow2;
    auto using land_shiftl_small.
Qed.

Lemma lor_80 x : x < 64 -> N.lor 0x80 x = 0x80 + x.
Proof. exact (lor_shiftl_add 2 6 x). Qed.
Lemma lor_C0 x : x < 32 -> N.lor 0xC0 x = 0xC0 + x.
Proof. exact (lor_shiftl_add 6 5 x). Qed.
Lemma lor_E0 x : x < 16 -> N.lor 0xE0 x = 0xE0 + x.
Proof. exact (lor_shiftl_add 14 4 x). Qed.
Lemma lor_F0 x : x < 8 -> N.lor 0xF0 x = 0xF0 + x.
Proof. exact (lor_shiftl_add 30 3 x). Qed.

Lemma land_3F x : N.land x 0x3F = x mod 64.
Proof. exact (N.land_ones x 6). Qed.
Lemma land_1F x : N.land x 0x1F = x mod 32.
Proof. exact (N.land_ones x 5). Qed.
Lemma land_0F x : N.land x 0xF = x mod 16.
Proof. exact (N.land_ones x 4). Qed.
Lemma land_07 x : N.land x 0x7 = x mod 8.
Proof. exact (N.land_ones x 3). Qed.
Lemma shiftr_6 x : N.shiftr x 6 = x / 64.
Proof. exact (N.shiftr_div_pow2 x 6). Qed.
Lemma shiftr_12 x : N.shiftr x 12 = x / 4096.
Proof. exact (N.shiftr_div_pow2 x 12). Qed.
Lemma shiftr_18 x : N.shiftr x 18 = x / 262144.
Proof. exact (N.shiftr_div_pow2 x 18). Qed.
Lemma absorb_add acc b :
  N.lor (N.shiftl acc 6) (N.land b 0x3F) = acc * 64 + b mod 64.
Proof.
  rewrite land_3F. apply (lor_shiftl_add acc 6). 
  apply N.mod_lt. discriminate.
Qed.

Ltac ifs :=
  repeat match goal with
         | |- context [(?a <? ?b)] => destruct (N.ltb_spec a b); try dm
         | |- context [(?a <=? ?b)] => destruct (N.leb_spec a b); try dm
         | |- context [(?a =? ?b)] => destruct (N.eqb_spec a b); try dm
         end.

Lemma enc1 c : c < 0x80 -> utf8_encode_char c = Some [byte_of_N c].
Proof. intros H. unfold utf8_encode_char. now ifs. Qed.

Lemma enc2 a l :
  2 <= a < 32 -> l < 64 ->
  utf8_encode_char (a * 64 + l)
  = Some [byte_of_N (0xC0 + a); byte_of_N (0x80 + l)].
Proof.
  intros Ha Hl. unfold utf8_encode_char. ifs.
  rewrite shiftr_6, land_3F, lor_C0, lor_80 by dm.
  repeat f_equal; dm.
Qed.

Lemma enc3 a l2 l3 :
  a < 16 -> l2 < 64 -> l3 < 64 ->
  (a = 0 -> 32 <= l2) -> (a = 13 -> l2 < 32) ->
  utf8_encode_char ((a * 64 + l2) * 64 + l3)
  = Some [byte_of_N (0xE0 + a); byte_of_N (0x80 + l2); byte_of_N (0x80 + l3)].
Proof.
  intros Ha H2 H3 H0 Hd. unfold utf8_encode_char. ifs; cbn [andb];
    rewrite shiftr_12, shiftr_6, !land_3F, lor_E0, !lor_80 by dm;
    repeat f_equal; dm.
Qed.

Lemma enc4 a l2 l3 l4 :
  a <= 4 -> l2 < 64 -> l3 < 64 -> l4 < 64 ->
  (a = 0 -> 16 <= l2) -> (a = 4 -> l2 < 16) ->
  utf8_encode_char (((a * 64 + l2) * 64 + l3) * 64 + l4)
  = Some [byte_of_N (0xF0 + a); byte_of_N (0x80 + l2);
          byte_of_N (0x80 + l3); byte_of_N (0x80 + l4)].
Proof.
  intros Ha H2 H3 H4 H0 Hd. unfold utf8_encode_char. ifs; cbn [andb];
    rewrite shiftr_18, shiftr_12, shiftr_6, !land_3F, lor_F0, !lor_80 by dm;
    repeat f_equal; dm.
Qed.

Lemma byte_of_to b : byte_of_N (Byte.to_N b) = b.
Proof. unfold byte_of_N. now rewrite Byte.of_to_N. Qed.

Lemma to_N_lt b : Byte.to_N b < 256.
Proof. pose proof (Byte.to_N_bounded b). lia. Qed.

Lemma absorb_value p b :
  0x80 <= b <= 0xBF -> absorb p b = p_acc p * 64 + (b - 0x80).
Proof. intros H. unfold absorb. rewrite absorb_add. dm. Qed.

Lemma start_cases b :
  match utf8_start b with
  | SChar c => c = b /\ b < 0x80
  | SInvalid => True
  | SLead p =>
      0x80 <= p_lo p /\ p_hi p <= 0xBF /\
      ((p_need p = 1%nat /\ 0xC2 <= b < 0xE0 /\ p_acc p = b - 0xC0)
       \/ (p_need p = 2%nat /\ 0xE0 <= b < 0xF0 /\ p_acc p = b - 0xE0
           /\ (b = 0xE0 -> 0xA0 <= p_lo p) /\ (b = 0xED -> p_hi p <= 0x9F))
       \/ (p_need p = 3%nat /\ 0xF0 <= b <= 0xF4 /\ p_acc p = b - 0xF0
           /\ (b = 0xF0 -> 0x90 <= p_lo p) /\ (b = 0xF4 -> p_hi p <= 0x8F)))
  end.
Proof.
  unfold utf8_start.
  destruct (N.ltb_spec b 0x80); [split; [reflexivity | assumption]|].
  destruct (N.ltb_spec b 0xC2); [exact I|].
  destruct (N.ltb_spec b 0xE0).
  { cbn [p_lo p_hi p_need p_acc]. rewrite land_1F.
    split; [lia|]. split; [lia|]. left. repeat split; try lia. dm. }
  destruct (N.eqb_spec b 0xE0).
  { subst b. cbn [p_lo p_hi p_need p_acc].
    split; [lia|]. split; [lia|]. right. left. repeat split; lia. }
  destruct (N.eqb_spec b 0xED).
  { subst b. cbn [p_lo p_hi p_need p_acc].
    split; [lia|]. split; [lia|]. right. left. repeat split; lia. }
  destruct (N.ltb_spec b 0xF0).
  { cbn [p_lo p_hi p_need p_acc]. rewrite land_0F.
    split; [lia|]. split; [lia|]. right. left. repeat split; try lia. dm. }
  destruct (N.eqb_spec b 0xF0).
  { subst b. cbn [p_lo p_hi p_need p_acc].
    split; [lia|]. split; [lia|]. right. right. repeat split; lia. }
  destruct (N.ltb_spec b 0xF4).
  { cbn [p_lo p_hi p_need p_acc]. rewrite land_07.
    split; [lia|]. split; [lia|]. right. right. repeat split; try lia. dm. }
  destruct (N.eqb_spec b 0xF4); [|exact I].
  subst b. cbn [p_lo p_hi p_need p_acc].
  split; [lia|]. split; [lia|]. right. right. repeat split; lia.
Qed.

Lemma strict_pending_nil p s :
  utf8_decode_from Strict (Some p) [] = Ok s -> False.
Proof. simpl. discriminate. Qed.

Lemma strict_cont p b rest s :
  utf8_decode_from Strict (Some p) (b :: rest) = Ok s ->
  p_lo p <= Byte.to_N b <= p_hi p
  /\ match p_need p with
     | S (S n) =>
         utf8_decode_from Strict
           (Some (MkPending (absorb p (Byte.to_N b)) (S n) 0x80 0xBF)) rest
         = Ok s
     | _ =>
         exists s', s = absorb p (Byte.to_N b) :: s'
                    /\ utf8_decode_from Strict None rest = Ok s'
     end.
Proof.
  cbn [utf8_decode_from]. unfold accepts.
  destruct (N.leb_spec (p_lo p) (Byte.to_N b));
    destruct (N.leb_spec (Byte.to_N b) (p_hi p)); cbn [andb on_error];
    try discriminate.
  intros Hd. split; [lia|].
  destruct (p_need p) as [|[|n]]; auto;
    destruct (utf8_decode_from Strict None rest) as [s'|e];
    try discriminate; injection Hd as <-; eauto.
Qed.

Lemma decode_then_encode_bounded n :
  forall bs s,
    (List.length bs <= n)%nat ->
    utf8_decode_from Strict None bs = Ok s ->
    str_encode UTF8 s = Ok bs.
Proof.
  induction n as [|n IH]; intros bs s Hlen Hdec.
  - destruct bs; [|simpl in Hlen; lia]. simpl in Hdec.
    now injection Hdec as <-.
  - destruct bs as [|b1 r1]; [simpl in Hdec; now injection Hdec as <-|].
    cbn [utf8_decode_from] in Hdec.
    pose proof (start_cases (Byte.to_N b1)) as Hs.
    pose proof (to_N_lt b1) as Hb1.
    destruct (utf8_start (Byte.to_N b1)) as [c|p|]; [| |discriminate].
    + destruct Hs as [-> Hc].
      destruct (utf8_decode_from Strict None r1) as [s'|e] eqn:E;
        [|discriminate].
      injection Hdec as <-. cbn [str_encode encode_char].
      rewrite (enc1 _ Hc), (IH r1 s' ltac:(simpl in Hlen; lia) E).
      cbn [app]. now rewrite byte_of_to.
    + destruct Hs as (Hlo & Hhi & [(Hn & Hb & Ha)|[(Hn & Hb & Ha & H0 & Hd)
                                                  |(Hn & Hb & Ha & H0 & Hd)]]).
      * destruct r1 as [|b2 r2]; [now apply strict_pending_nil in Hdec|].
        apply strict_cont in Hdec as [Hr2 Hdec]. rewrite Hn in Hdec.
        destruct Hdec as (s' & -> & E).
        rewrite absorb_value, Ha by lia.
        cbn [str_encode encode_char].
        rewrite enc2 by lia.
        rewrite (IH r2 s' ltac:(simpl in Hlen; lia) E). cbn [app].
        replace (0xC0 + (Byte.to_N b1 - 0xC0)) with (Byte.to_N b1) by lia.
        replace (0x80 + (Byte.to_N b2 - 0x80)) with (Byte.to_N b2) by lia.
        now rewrite !byte_of_to.
      * destruct r1 as [|b2 r2]; [now apply strict_pending_nil in Hdec|].
        apply strict_cont in Hdec as [Hr2 Hdec]. rewrite Hn in Hdec.
        destruct r2 as [|b3 r3]; [now apply strict_pending_nil in Hdec|].
        apply strict_cont in Hdec as [Hr3 Hdec].
        cbn [p_need p_lo p_hi p_acc] in Hr3, Hdec.
        destruct Hdec as (s' & -> & E).
        rewrite (absorb_value _ (Byte.to_N b3)) by lia. cbn [p_acc].
        rewrite absorb_value, Ha by lia.
        cbn [str_encode encode_char].
        rewrite enc3 by lia.
        rewrite (IH r3 s' ltac:(simpl in Hlen; lia) E). cbn [app].
        replace (0xE0 + (Byte.to_N b1 - 0xE0)) with (Byte.to_N b1) by lia.
        replace (0x80 + (Byte.to_N b2 - 0x80)) with (Byte.to_N b2) by lia.
        replace (0x80 + (Byte.to_N b3 - 0x80)) with (Byte.to_N b3) by lia.
        now rewrite !byte_of_to.
      * destruct r1 as [|b2 r2]; [now apply strict_pending_nil in Hdec|].
        apply strict_cont in Hdec as [Hr2 Hdec]. rewrite Hn in Hdec.
        destruct r2 as [|b3 r3]; [now apply strict_pending_nil in Hdec|].
        apply strict_cont in Hdec as [Hr3 Hdec].
        cbn [p_need p_lo p_hi p_acc] in Hr3, Hdec.
        destruct r3 as [|b4 r4]; [now apply strict_pending_nil in Hdec|].
        apply strict_cont in Hdec as [Hr4 Hdec].
        cbn [p_need p_lo p_hi p_acc] in Hr4, Hdec.
        destruct Hdec as (s' & -> & E).
        rewrite (absorb_value _ (Byte.to_N b4)) by lia. cbn [p_acc].
        rewrite (absorb_value _ (Byte.to_N b3)) by lia. cbn [p_acc].
        rewrite absorb_value, Ha by lia.
        cbn [str_encode encode_char].
        rewrite enc4 by lia.
        rewrite (IH r4 s' ltac:(simpl in Hlen; lia) E). cbn [app].
        replace (0xF0 + (Byte.to_N b1 - 0xF0)) with (Byte.to_N b1) by lia.
        replace (0x80 + (Byte.to_N b2 - 0x80)) with (Byte.to_N b2) by lia.
        replace (0x80 + (Byte.to_N b3 - 0x80)) with (Byte.to_N b3) by lia.
        replace (0x80 + (Byte.to_N b4 - 0x80)) with (Byte.to_N b4) by lia.
        now rewrite !byte_of_to.
Qed.

Local Close Scope N_scope.

(** ** UTF-8: encoding, then decoding *)

Local Open Scope N_scope.

Lemma to_of_byte x : x < 256 -> Byte.to_N (byte_of_N x) = x.
Proof.
  intros H. unfold byte_of_N.
  destruct (Byte.of_N x) as [b|] eqn:E.
  - now apply Byte.to_of_N.
  - apply Byte.of_N_None_iff in E. lia.
Qed.

Lemma start1 b : b < 0x80 -> utf8_start b = SChar b.
Proof. intros H. unfold utf8_start. now ifs. Qed.

Lemma start2 b :
  0xC2 <= b < 0xE0 -> utf8_start b = SLead (MkPending (b - 0xC0) 1 0x80 0xBF).
Proof.
  intros H. unfold utf8_start. ifs. rewrite land_1F. do 2 f_equal. dm.
Qed.

Lemma start3 b :
  0xE0 <= b < 0xF0 ->
  utf8_start b
  = SLead (MkPending (b - 0xE0) 2 (if b =? 0xE0 then 0xA0 else 0x80)
             (if b =? 0xED then 0x9F else 0xBF)).
Proof.
  intros H. unfold utf8_start.
  destruct (N.ltb_spec b 0x80); [lia|].
  destruct (N.ltb_spec b 0xC2); [lia|].
  destruct (N.ltb_spec b 0xE0); [lia|].
  destruct (N.eqb_spec b 0xE0); [now subst|].
  destruct (N.eqb_spec b 0xED); [now subst|].
  destruct (N.ltb_spec b 0xF0); [|lia].
  rewrite land_0F. do 2 f_equal. dm.
Qed.

Lemma start4 b :
  0xF0 <= b <= 0xF4 ->
  utf8_start b
  = SLead (MkPending (b - 0xF0) 3 (if b =? 0xF0 then 0x90 else 0x80)
             (if b =? 0xF4 then 0x8F else 0xBF)).
Proof.
  intros H. unfold utf8_start.
  destruct (N.ltb_spec b 0x80); [lia|].
  destruct (N.ltb_spec b 0xC2); [lia|].
  destruct (N.ltb_spec b 0xE0); [lia|].
  destruct (N.eqb_spec b 0xE0); [lia|].
  destruct (N.eqb_spec b 0xED); [lia|].
  destruct (N.ltb_spec b 0xF0); [lia|].
  destruct (N.eqb_spec b 0xF0); [now subst|].
  destruct (N.ltb_spec b 0xF4).
  - destruct (N.eqb_spec b 0xF4); [lia|]. rewrite land_07. do 2 f_equal. dm.
  - destruct (N.eqb_spec b 0xF4); [now subst|lia].
Qed.

Lemma cont_step h p x rest :
  x < 256 -> p_lo p <= x <= p_hi p ->
  utf8_decode_from h (Some p) (byte_of_N x :: rest)
  = match p_need p with
    | S (S n) =>
        utf8_decode_from h (Some (MkPending (absorb p x) (S n) 0x80 0xBF)) rest
    | _ => cons_ok (absorb p x) (utf8_decode_from h None rest)
    end.
Proof.
  intros Hx Hr. cbn [utf8_decode_from]. rewrite to_of_byte by exact Hx.
  unfold accepts.
  destruct (N.leb_spec (p_lo p) x); [|lia].
  destruct (N.leb_spec x (p_hi p)); [|lia].
  reflexivity.
Qed.

Lemma lead_step h x rest :
  x < 256 ->
  utf8_decode_from h None (byte_of_N x :: rest)
  = match utf8_start x with
    | SChar c => cons_ok c (utf8_decode_from h None rest)
    | SLead p => utf8_decode_from h (Some p) rest
    | SInvalid => on_error h (utf8_decode_from h None rest)
    end.
Proof. intros Hx. cbn [utf8_decode_from]. now rewrite to_of_byte. Qed.

Lemma absorb_arith p x :
  absorb p x = p_acc p * 64 + x mod 64.
Proof. unfold absorb. apply absorb_add. Qed.

Lemma some_eq {A} (a b : A) : Some a = Some b -> a = b.
Proof. congruence. Qed.

Lemma decode_char h c bs rest :
  utf8_encode_char c = Some bs ->
  utf8_decode_from h None (bs ++ rest)
  = cons_ok c (utf8_decode_from h None rest).
Proof.
  unfold utf8_encode_char.
  destruct (N.ltb_spec c 0x80) as [H1|H1].
  { intros Hb; apply some_eq in Hb; subst bs. cbn [app]. rewrite lead_step, start1 by lia. reflexivity. }
  destruct (N.ltb_spec c 0x800) as [H2|H2].
  { intros Hb; apply some_eq in Hb; subst bs. cbn [app].
    rewrite shiftr_6, land_3F, lor_C0, lor_80 by dm.
    rewrite lead_step, start2 by dm.
    rewrite cont_step by (cbn [p_lo p_hi]; dm).
    cbn [p_need]. rewrite absorb_arith. cbn [p_acc].
    f_equal. dm. }
  destruct (N.ltb_spec c 0x10000) as [H3|H3].
  { destruct (N.leb_spec 0xD800 c) as [H4|H4];
      destruct (N.leb_spec c 0xDFFF) as [H5|H5]; cbn [andb];
      try discriminate;
      intros Hb; apply some_eq in Hb; subst bs; cbn [app];
      rewrite shiftr_12, shiftr_6, !land_3F, lor_E0, !lor_80 by dm;
      rewrite lead_step, start3 by dm;
      (rewrite cont_step;
       [|dm|cbn [p_lo p_hi];
            destruct (N.eqb_spec (0xE0 + c / 4096) 0xE0);
            destruct (N.eqb_spec (0xE0 + c / 4096) 0xED); dm]);
      cbn [p_need];
      rewrite cont_step by (cbn [p_lo p_hi]; dm);
      cbn [p_need]; rewrite !absorb_arith; cbn [p_acc];
      f_equal; dm. }
  destruct (N.ltb_spec c 0x110000) as [H4|H4]; [|discriminate].
  intros Hb; apply some_eq in Hb; subst bs. cbn [app].
  rewrite shiftr_18, shiftr_12, shiftr_6, !land_3F, lor_F0, !lor_80 by dm.
  rewrite lead_step, start4 by dm.
  rewrite cont_step;
    [|dm|cbn [p_lo p_hi];
         destruct (N.eqb_spec (0xF0 + c / 262144) 0xF0);
         destruct (N.eqb_spec (0xF0 + c / 262144) 0xF4); dm].
  cbn [p_need].
  rewrite cont_step by (cbn [p_lo p_hi]; dm). cbn [p_need].
  rewrite cont_step by (cbn [p_lo p_hi]; dm). cbn [p_need].
  rewrite !absorb_arith. cbn [p_acc]. f_equal. dm.
Qed.

Lemma encode_then_decode h s :
  forall bs, str_encode UTF8 s = Ok bs -> utf8_decode h bs = Ok s.
Proof.
  unfold utf8_decode. induction s as [|c s IH]; intros bs.
  - simpl. now intros [= <-].
  - cbn [str_encode encode_char].
    destruct (utf8_encode_char c) as [cb|] eqn:Ec; [|discriminate].
    destruct (str_encode UTF8 s) as [tl|e]; [|discriminate].
    intros [= <-]. rewrite (decode_char h c cb tl Ec), (IH tl eq_refl).
    reflexivity.
Qed.

Local Close Scope N_scope.

(** ** The codecs of the script as round trips *)

Lemma decode_then_encode bs s :
  utf8_decode Strict bs = Ok s -> str_encode UTF8 s = Ok bs.
Proof. apply (decode_then_encode_bounded (List.length bs)). lia. Qed.

(** X15.  UTF-8 as the script uses it.  A byte string decodes strictly to a
    text exactly when the text encodes to the byte string: what
    [candidate.encode('utf-8')] makes of a candidate read from
    well-formed bytes is those bytes again, and the bytes it makes of any
    string decode back to the string, under [errors='ignore'] as well. *)
Theorem utf8_round_trip bs s :
  (utf8_decode Strict bs = Ok s <-> str_encode UTF8 s = Ok bs)
  /\ (str_encode UTF8 s = Ok bs -> utf8_decode Ignore bs = Ok s).
Proof.
  split; [split|].
  - apply decode_then_encode.
  - apply encode_then_decode.
  - apply encode_then_decode.
Qed.

Lemma latin1_char x :
  (x < 256)%N -> latin1_encode_char x = Some [byte_of_N x].
Proof.
  intros H. unfold latin1_encode_char.
  destruct (N.ltb_spec x 0x100); [reflexivity | lia].
Qed.

(** X16.  Latin-1 as the script uses it.  [candidate.encode('latin-1')] gives
    one byte per code point, the byte of the same number; it succeeds
    exactly for the strings whose code points are all below 256.  So
    every byte string is the Latin-1 encoding of one candidate and of no
    other. *)
Theorem latin1_round_trip s bs :
  str_encode Latin1 s = Ok bs <-> s = map Byte.to_N bs.
Proof.
  split.
  - revert bs. induction s as [|x s IH]; intros bs.
    + simpl. now intros [= <-].
    + cbn [str_encode encode_char]. unfold latin1_encode_char.
      destruct (N.ltb_spec x 0x100) as [Hx|Hx]; [|discriminate].
      destruct (str_encode Latin1 s) as [tl|e]; [|discriminate].
      intros [= <-].
      cbn [app map]. rewrite (to_of_byte x Hx), <- (IH tl eq_refl).
      reflexivity.
  - intros ->. induction bs as [|b bs IH]; [reflexivity|].
    cbn [map str_encode encode_char].
    rewrite latin1_char by apply to_N_lt.
    rewrite IH, byte_of_to. reflexivity.
Qed.

(** ** Every candidate is tried *)

Lemma str_encode_chars enc s :
  (exists bs, str_encode enc s = Ok bs)
  <-> (forall c, In c s -> encode_char enc c <> None).
Proof.
  induction s as [|x s IH]; cbn [str_encode].
  - split; [intros _ c [] | eauto].
  - split.
    + intros [bs H] c [<-|Hc].
      * destruct (encode_char enc x); [discriminate|discriminate].
      * apply IH; [|exact Hc].
        destruct (encode_char enc x); [|discriminate].
        destruct (str_encode enc s); [eauto|discriminate].
    + intros H.
      destruct (encode_char enc x) eqn:Ex;
        [|exfalso; apply (H x); [now left | exact Ex]].
      destruct (proj2 IH) as [tl ->]; [|eauto].
      intros c Hc. apply H. now right.
Qed.

Lemma translate_chars_aux s :
  (forall x, In x (translate_newlines s) -> x = LF \/ In x s)
  /\ forall c x, In x (translate_newlines (c :: s)) -> x = LF \/ In x (c :: s).
Proof.
  induction s as [|c' rest [IH1 IH2]].
  - split; [simpl; tauto|]. intros c x. simpl.
    destruct (c =? CR)%N; simpl; intuition.
  - split; [apply IH2|]. intros c x. cbn [translate_newlines].
    destruct (c =? CR)%N.
    + destruct (c' =? LF)%N; intros [H|H]; auto.
      * destruct (IH1 x H); auto. right. right. now right.
      * destruct (IH2 c' x H); auto. right. now right.
    + intros [H|H]; [right; now left|].
      destruct (IH2 c' x H); auto. right. now right.
Qed.

Lemma rstrip_chars l x : In x (rstrip l) -> In x l.
Proof.
  intros H. destruct (rstrip_junk l) as (junk & Hj & _).
  rewrite Hj. apply in_or_app. now left.
Qed.

Lemma hold_back_chars s x : In x (hold_back_cr s) -> In x s.
Proof.
  unfold hold_back_cr. destruct (rev s) as [|c r] eqn:Hr; [intros []|].
  destruct (c =? CR)%N; [|auto].
  intros H. apply in_rev. rewrite Hr. right. now apply in_rev.
Qed.

(** The code points of a candidate are code points of the decoded file
    (or the line feed that text mode puts for a line end). *)
Lemma candidate_chars src c x :
  In c (wordlist_candidates src) -> In x c ->
  exists text, utf8_decode Ignore (t_bytes src) = Ok text /\ In x text.
Proof.
  unfold wordlist_candidates, candidates_of, file_iter. intros Hc Hx.
  apply filter_In in Hc as [Hc _].
  apply in_map_iff in Hc as (line & <- & Hline).
  apply rstrip_chars in Hx as Hxl.
  assert (Hnl : x <> LF).
  { intros ->.
    assert (Hsrc : In (rstrip line) (wordlist_candidates src)).
    { unfold wordlist_candidates, candidates_of, file_iter.
      apply filter_In. split.
      - apply in_map. exact Hline.
      - destruct (rstrip line); [destruct Hx | reflexivity]. }
    now apply (proj2 (candidate_shape src (rstrip line) Hsrc)). }
  destruct (utf8_decode Ignore (t_bytes src)) as [text|e];
    [|destruct Hline].
  exists text. split; [reflexivity|].
  destruct (t_read_error src); cbn [fst] in Hline.
  - apply filter_In in Hline as [Hline _].
    pose proof (readlines_chars _ _ _ Hline Hxl) as Ht.
    apply (proj1 (translate_chars_aux _)) in Ht as [Ht|Ht]; [congruence|].
    now apply hold_back_chars.
  - pose proof (readlines_chars _ _ _ Hline Hxl) as Ht.
    apply (proj1 (translate_chars_aux _)) in Ht as [Ht|Ht]; [congruence|].
    exact Ht.
Qed.

Lemma candidate_utf8 src c :
  In c (wordlist_candidates src) -> exists bs, str_encode UTF8 c = Ok bs.
Proof.
  intros Hc. apply str_encode_chars. intros x Hx.
  destruct (candidate_chars src c x Hc Hx) as (text & Ht & Hin).
  destruct (decode_ignore_drops None (t_bytes src))
    as (text' & kept & E & _ & [L|[C _]]); [|congruence].
  unfold utf8_decode in Ht. rewrite Ht in E. injection E as <-.
  apply decode_then_encode in L.
  apply (proj1 (str_encode_chars UTF8 text)); eauto.
Qed.

Lemma upto_nonempty {A} (p : A -> bool) l :
  l <> [] -> 1 <= List.length (upto p l).
Proof. destruct l; [congruence|]. simpl. lia. Qed.

Lemma flat_map_length_lower {A B} (f : A -> list B) l :
  (forall a, In a l -> 1 <= List.length (f a)) ->
  List.length l <= List.length (flat_map f l).
Proof.
  induction l as [|a l IH]; simpl; [lia|]. intros H.
  rewrite length_app. specialize (H a (or_introl eq_refl)) as Ha.
  specialize (IH (fun x Hx => H x (or_intror Hx))). lia.
Qed.

Lemma upto_incl {A} (p : A -> bool) l x : In x (upto p l) -> In x l.
Proof.
  induction l as [|a l IH]; simpl; [tauto|].
  intros [<-|H]; [now left|]. destruct (p a); [destruct H|]. right. auto.
Qed.

(** X9.  No candidate of a wordlist is skipped.  Whatever bytes the file
    holds, each candidate read from it has UTF-8 bytes -- the [except]
    around [candidate.encode] never fires for ['utf-8'] -- and the loop
    probes it at least once, first with these bytes and the built-in
    reader: a run makes at least as many probes as it takes candidates. *)
Theorem every_candidate_is_probed w zip_path wordlist_path verbose z target
    src :
  archive_ready w zip_path z target ->
  open_text w wordlist_path = Ok src ->
  (forall c, In c (wordlist_candidates src) ->
     exists bs more,
       str_encode UTF8 c = Ok bs
       /\ plan (capability_of w) c = (Primary, bs) :: more)
  /\ exists rc st',
       find_password w zip_path wordlist_path verbose init_state
       = (Ok rc, st')
       /\ List.length (candidates_read (trace st'))
          <= List.length (probes (trace st')).
Proof.
  intros Hr Hopen.
  assert (Hplan : forall c, In c (wordlist_candidates src) ->
            exists bs more,
              str_encode UTF8 c = Ok bs
              /\ plan (capability_of w) c = (Primary, bs) :: more).
  { intros c Hc. destruct (candidate_utf8 src c Hc) as [bs Hbs].
    exists bs. rewrite plan_attempts. cbn [flat_map]. rewrite Hbs.
    cbn [app]. eauto. }
  split; [exact Hplan|].
  apply archive_ready_prelude in Hr.
  destruct (run_ready w zip_path wordlist_path verbose z target Hr)
    as (err & evs & n & E & _ & _ & R & _).
  rewrite Hopen in R. destruct R as [RC RP].
  eexists _, _. split; [exact E|]. cbn [trace].
  destruct (prefix_reads zip_path wordlist_path evs) as [-> ->].
  rewrite RC, RP. apply flat_map_length_lower.
  intros c Hc. apply upto_incl in Hc.
  destruct (Hplan c Hc) as (bs & more & _ & ->).
  apply upto_nonempty. discriminate.
Qed.

(** ** The bytes of the file are the bytes tried *)

Lemma translate_id_aux s :
  (~ In CR s -> translate_newlines s = s)
  /\ forall c, ~ In CR (c :: s) -> translate_newlines (c :: s) = c :: s.
Proof.
  induction s as [|c' rest [IH1 IH2]].
  - split; [reflexivity|]. intros c H. simpl.
    destruct (N.eqb_spec c CR) as [->|_]; [exfalso; apply H; now left|].
    reflexivity.
  - split; [apply IH2|]. intros c H. cbn [translate_newlines].
    destruct (N.eqb_spec c CR) as [->|_]; [exfalso; apply H; now left|].
    f_equal. apply IH2. intros Hin. apply H. now right.
Qed.

Lemma str_encode_app enc a b ba bb :
  str_encode enc a = Ok ba -> str_encode enc b = Ok bb ->
  str_encode enc (a ++ b) = Ok (ba ++ bb).
Proof.
  revert ba. induction a as [|x a IH]; intros ba.
  - simpl. intros [= <-] Hb. exact Hb.
  - cbn [str_encode app].
    destruct (encode_char enc x) as [cb|]; [|discriminate].
    destruct (str_encode enc a) as [tl|e]; [|discriminate].
    intros [= <-] Hb. rewrite (IH tl eq_refl Hb). now rewrite app_assoc.
Qed.

Lemma str_encode_bytes enc s bs c cb b :
  str_encode enc s = Ok bs -> In c s ->
  encode_char enc c = Some cb -> In b cb -> In b bs.
Proof.
  revert bs. induction s as [|x s IH]; intros bs; [intros _ []|].
  cbn [str_encode].
  destruct (encode_char enc x) as [xb|] eqn:Ex; [|discriminate].
  destruct (str_encode enc s) as [tl|e]; [|discriminate].
  intros [= <-] [<-|Hc] Hcb Hb; apply in_or_app.
  - left. rewrite Ex in Hcb. injection Hcb as <-. exact Hb.
  - right. eapply IH; eauto.
Qed.

(** X17.  A well-formed wordlist without carriage returns is tried byte for
    byte: the lines the file delivers are the lines of its text, and
    their UTF-8 bytes put end to end are the bytes of the file.  So the
    bytes [candidate.encode('utf-8')] hands to the probes are the bytes
    that stand in the file between two line feeds. *)
Theorem wordlist_bytes_are_tried src text :
  utf8_decode Strict (t_bytes src) = Ok text ->
  t_read_error src = None ->
  ~ In x0d (t_bytes src) ->
  fst (file_iter src) = readlines text
  /\ str_encode UTF8 (List.concat (fst (file_iter src))) = Ok (t_bytes src)
  /\ forall c, In c (wordlist_candidates src) ->
       exists line bs,
         In line (readlines text)
         /\ (line = c \/ line = c ++ [LF])
         /\ str_encode UTF8 c = Ok bs.
Proof.
  intros Hdec Hend Hcr.
  pose proof (decode_then_encode _ _ Hdec) as Henc.
  assert (Hnocr : ~ In CR text).
  { intros Hin. apply Hcr.
    apply (str_encode_bytes UTF8 text (t_bytes src) CR [x0d] x0d Henc Hin).
    - reflexivity.
    - now left. }
  assert (Hlines : fst (file_iter src) = readlines text).
  { unfold file_iter.
    rewrite (strict_then_ignore None _ _ Hdec : utf8_decode Ignore _ = _), Hend.
    cbn [fst].
    now rewrite (proj1 (translate_id_aux text) Hnocr). }
  split; [exact Hlines|]. split.
  - now rewrite Hlines, readlines_concat.
  - intros c Hc. destruct (candidate_utf8 src c Hc) as [bs Hbs].
    unfold wordlist_candidates, candidates_of in Hc.
    apply filter_In in Hc as [Hc _].
    apply in_map_iff in Hc as (line & <- & Hline).
    exists line, bs. rewrite <- Hlines. split; [exact Hline|].
    split; [|exact Hbs].
    destruct (rstrip_keeps_line src line Hline) as [H|H]; auto.
Qed.

(** ** Verbosity *)

Lemma run_reads w zip_path wordlist_path :
  exists P C T,
    forall verbose,
      probes (trace (snd (find_password w zip_path wordlist_path verbose
                            init_state))) = P
      /\ candidates_read
           (trace (snd (find_password w zip_path wordlist_path verbose
                          init_state))) = C
      /\ texts_opened
           (trace (snd (find_password w zip_path wordlist_path verbose
                          init_state))) = T
      /\ (T = [] \/ T = [wordlist_path]).
Proof.
  destruct (prelude w zip_path) as [m|m|z target] eqn:Hp.
  - exists [], [], []. intros verbose.
    rewrite (run_no_archive w zip_path wordlist_path verbose m Hp).
    repeat split; auto.
  - exists [], [], []. intros verbose.
    rewrite (run_no_target w zip_path wordlist_path verbose m Hp).
    repeat split; auto.
  - destruct (open_text w wordlist_path) as [src|e] eqn:Ho.
    + eexists _, _, [wordlist_path]. intros verbose.
      destruct (run_ready w zip_path wordlist_path verbose z target Hp)
        as (err & evs & n & E & _ & _ & R & F & _).
      rewrite Ho in R. destruct R as [RC RP]. rewrite E. cbn [snd trace].
      destruct (prefix_reads zip_path wordlist_path evs) as [-> ->].
      split; [exact RP|]. split; [exact RC|]. split; [|auto].
      cbn [app texts_opened].
      now rewrite (proj1 (proj2 (run_events_facts target evs F))).
    + exists [], [], [wordlist_path]. intros verbose.
      destruct (run_ready w zip_path wordlist_path verbose z target Hp)
        as (err & evs & n & E & _ & _ & R & F & _).
      rewrite Ho in R. subst evs. rewrite E. cbn [snd trace].
      repeat split; auto.
Qed.

(** X5.  [--verbose] is observation only.  The verbose run and the quiet run
    return the same code, print the same on standard output, read the
    same candidates and make the same probes in the same order; the
    error stream of the quiet run is that of the verbose run with the
    debug lines taken out. *)
Theorem verbose_only_adds_debug_lines w zip_path wordlist_path :
  exists rc loud quiet,
    find_password w zip_path wordlist_path true init_state = (Ok rc, loud)
    /\ find_password w zip_path wordlist_path false init_state
       = (Ok rc, quiet)
    /\ stdout quiet = stdout loud
    /\ stderr quiet = errors (stderr loud)
    /\ probes (trace quiet) = probes (trace loud)
    /\ candidates_read (trace quiet) = candidates_read (trace loud).
Proof.
  destruct (find_password_run w zip_path wordlist_path true)
    as (loud & dbg1 & E1 & O1 & R1 & D1 & _).
  destruct (find_password_run w zip_path wordlist_path false)
    as (quiet & dbg2 & E2 & O2 & R2 & D2 & Q2).
  destruct (run_reads w zip_path wordlist_path) as (P & C & T & H).
  destruct (H true) as (P1 & C1 & _). destruct (H false) as (P2 & C2 & _).
  rewrite E1 in P1, C1. rewrite E2 in P2, C2. cbn [snd] in *.
  eexists _, loud, quiet. split; [exact E1|]. split; [exact E2|].
  split; [congruence|]. split; [|split; congruence].
  rewrite R2, (Q2 eq_refl), R1, errors_app, D1. cbn [app].
  destruct (expected w zip_path wordlist_path) as [c| |m] eqn:Ho;
    try reflexivity.
  cbn [reported errors filter].
  now rewrite (expected_failed_is_error _ _ _ _ Ho).
Qed.

(** ** [main] *)

(** X18.  The process as a whole.  Its exit status is 0, 1 or 2; it is 0
    exactly when something was written to standard output.  Without
    [--zip] the status is 2 and the script makes no call at all.  With it,
    the status is the value [find_password] returns for the given
    archive, the wordlist given with [--wordlist] or else [TOP500.txt],
    and the given verbosity; no text file other than that wordlist is
    opened. *)
Theorem main_exit_status w c :
  (exit_status (main w c) = 0 \/ exit_status (main w c) = 1
   \/ exit_status (main w c) = 2)%Z
  /\ (exit_status (main w c) = 0%Z <-> stdout (final (main w c)) <> [])
  /\ (cli_zip c = None ->
      exit_status (main w c) = 2%Z /\ final (main w c) = init_state)
  /\ (forall zip,
        cli_zip c = Some zip ->
        let wordlist :=
          match cli_wordlist c with
          | Some path => path
          | None => "TOP500.txt"%string
          end in
        find_password w zip wordlist (cli_verbose c) init_state
        = (Ok (exit_status (main w c)), final (main w c))
        /\ forall path, In path (texts_opened (trace (final (main w c)))) ->
                        path = wordlist).
Proof.
  unfold main, parse_args.
  destruct (cli_zip c) as [zip|]; cbn [exit_status final].
  - set (wordlist := match cli_wordlist c with
                     | Some path => path
                     | None => "TOP500.txt"%string
                     end).
    destruct (find_password_run w zip wordlist (cli_verbose c))
      as (st & dbg & E & O & _).
    destruct (run_reads w zip wordlist) as (P & C & T & H).
    destruct (H (cli_verbose c)) as (_ & _ & HT & HT').
    rewrite E in HT |- *. cbn [exit_status final snd] in HT |- *.
    split; [|split; [|split; [discriminate|]]].
    + destruct (expected w zip wordlist); cbn; auto.
    + rewrite O. destruct (expected w zip wordlist) as [pw| |m];
        cbn [exit_code output]; split; try discriminate; auto.
      * intros _. now destruct pw.
      * intros Hn. now contradiction Hn.
      * intros Hn. now contradiction Hn.
    + intros zip' [= <-]. cbv zeta. split; [exact E|].
      intros path Hin. rewrite HT in Hin.
      destruct HT' as [->| ->]; [destruct Hin|].
      destruct Hin as [<-|[]]. reflexivity.
  - split; [auto|]. split; [|split; [auto|discriminate]].
    cbn [stdout init_state]. split; [discriminate|].
    intros H. now contradiction H.
Qed.

(** * Scenarios for the further properties *)

Local Open Scope string_scope.
Local Open Scope list_scope.

(** [secret.zip] with the wordlist admin, 123456, password: the second
    candidate is printed and the third is never read. *)
Lemma first_match_ends_the_search_witness :
  exists st',
    find_password w1 "secret.zip" "top.txt" false init_state = (Ok 0%Z, st')
    /\ stdout st' = py "123456" ++ [LF]
    /\ candidates_read (trace st') = [py "admin"; py "123456"].
Proof.
  destruct (first_match_ends_the_search w1 "secret.zip" "top.txt" false
              secret_archive readme top_txt 2 (py "123456"))
    as (st' & E & O & _ & _ & C & _).
  - exact secret_zip_ready.
  - reflexivity.
  - lia.
  - reflexivity.
  - vm_compute. reflexivity.
  - intros c' [<-|[]]. vm_compute. reflexivity.
  - exists st'. split; [exact E|]. split; [exact O|exact C].
Defined.

(** With standard output in UTF-8, a password stored as Latin-1 bytes is
    found although the UTF-8 bytes of the candidate do not open the
    member. *)
Lemma attempts_in_fixed_order_witness :
  str_encode UTF8 e_acute = Ok [xc3; xa9]
  /\ primary_ok latin_archive (py "a.txt") [xc3; xa9] = false
  /\ fst (try_encodings w_utf8 "latin.zip" latin_archive (py "a.txt") None
            [UTF8; Latin1] e_acute init_state) = Ok (Some 0%Z).
Proof.
  split; [reflexivity|]. split; [reflexivity|].
  destruct (attempts_in_fixed_order w_utf8 "latin.zip" latin_archive
              (py "a.txt") None e_acute init_state)
    as (r & evs & E & _ & _ & H & _).
  rewrite E. cbn [fst]. apply H. split; reflexivity.
Defined.

Lemma exit_0_means_verified_witness :
  exists c, stdout (snd (find_password w1 "secret.zip" "top.txt" false
                           init_state)) = c ++ [LF]
            /\ In c (wordlist_candidates top_txt).
Proof.
  destruct (exit_0_means_verified w1 "secret.zip" "top.txt" false
              (snd (find_password w1 "secret.zip" "top.txt" false
                      init_state)))
    as (z & target & src & before & c & after & _ & Ho & Hs & _ & _ & O & _).
  - vm_compute. reflexivity.
  - exists c. split; [exact O|].
    assert (Hsrc : src = top_txt).
    { assert (H0 : open_text w1 "top.txt" = Ok top_txt) by reflexivity.
      congruence. }
    rewrite <- Hsrc, Hs. apply in_or_app. right. now left.
Defined.

Lemma exit_1_means_no_candidate_witness :
  exists z target,
    archive_ready w1 "secret.zip" z target
    /\ verifies "secret.zip" z target (capability_of w1) (py "admin") = false.
Proof.
  destruct (exit_1_means_no_candidate w1 "secret.zip" "short.txt" false
              (snd (find_password w1 "secret.zip" "short.txt" false
                      init_state)))
    as (z & target & src & Hr & Ho & _ & Hn & _).
  - vm_compute. reflexivity.
  - exists z, target. split; [exact Hr|]. apply Hn.
    assert (Hsrc : src = short_txt).
    { assert (H0 : open_text w1 "short.txt" = Ok short_txt) by reflexivity.
      congruence. }
    rewrite Hsrc. vm_compute. now left.
Defined.

(** The run on [latin.zip] with standard output in ASCII returns 2. *)
Lemma exit_2_has_a_cause_witness :
  exists m dbg,
    (structural_error w_ascii "latin.zip" "accents.txt" m
     \/ (m = ErrWordlist encode_error
         /\ exists c, match_not_printable w_ascii "latin.zip" "accents.txt"
                        c))
    /\ stderr (snd (find_password w_ascii "latin.zip" "accents.txt" false
                      init_state)) = dbg ++ [m].
Proof.
  destruct (exit_2_has_a_cause w_ascii "latin.zip" "accents.txt" false
              (snd (find_password w_ascii "latin.zip" "accents.txt" false
                      init_state)))
    as (m & dbg & Hs & R & _).
  - vm_compute. reflexivity.
  - exists m, dbg. split; [exact Hs|exact R].
Defined.

Lemma long_zip_ready :
  archive_ready w_long "secret.zip" secret_archive readme.
Proof.
  exists secret_zip, [py "docs/"; py "docs/readme.txt"].
  repeat split; reflexivity.
Qed.

(** A hundred wrong candidates: one progress line, two clock reads. *)
Lemma progress_every_100_candidates_witness :
  exists rc st',
    find_password w_long "secret.zip" "long.txt" true init_state
    = (Ok rc, st')
    /\ stderr st'
       = [DbgTargetMember readme; DbgPyzipperMissing;
          DbgProgress 100 1%Z 0%Z]
    /\ ticks st' = 2.
Proof.
  destruct (progress_every_100_candidates w_long "secret.zip" "long.txt" true
              secret_archive readme long_txt long_zip_ready eq_refl)
    as (rc & st' & E & R & T).
  exists rc, st'. split; [exact E|]. split.
  - rewrite R. vm_compute. reflexivity.
  - rewrite T. vm_compute. reflexivity.
Defined.

(** The run that finds the password of [secret.zip] at the second line
    of [top.txt] leaves the loop by [return 0]: the wordlist is closed
    all the same. *)
Lemma wordlist_closed_on_every_path_witness :
  exists rc st' body,
    find_password w1 "secret.zip" "top.txt" false init_state = (Ok rc, st')
    /\ trace st' = body ++ [EvClose HWordlist; EvClose HArchive]
    /\ filter closes_wordlist body = [].
Proof.
  destruct (wordlist_closed_on_every_path w1 "secret.zip" "top.txt" false)
    as (rc & st' & E & H & _).
  destruct (H secret_archive readme top_txt secret_zip_ready eq_refl)
    as (body & T & K & _).
  exists rc, st', body. split; [exact E|]. split; [exact T|exact K].
Defined.

Lemma probes_bounded_by_candidates_witness :
  exists rc st',
    find_password w1 "secret.zip" "top.txt" false init_state = (Ok rc, st')
    /\ List.length (probes (trace st'))
       <= 4 * List.length (candidates_read (trace st')).
Proof.
  destruct (probes_bounded_by_candidates w1 "secret.zip" "top.txt" false
              secret_archive readme top_txt secret_zip_ready eq_refl)
    as (rc & st' & E & B & _).
  exists rc, st'. split; [exact E|exact B].
Defined.

Lemma latin1_pass_only_for_high_latin_witness :
  fst (try_encodings w1 "secret.zip" secret_archive readme None
         [UTF8; Latin1] (py "admin") init_state)
  = fst (try_encodings w1 "secret.zip" secret_archive readme None [UTF8]
           (py "admin") init_state).
Proof.
  exact (proj1 (latin1_pass_only_for_high_latin w1 "secret.zip"
                  secret_archive readme None (py "admin") init_state
                  eq_refl)).
Defined.

Lemma probes_close_their_handles_witness :
  trace (snd (try_zipfile_open secret_archive readme
                (list_byte_of_string "123456") init_state))
  = [EvTryZipfileOpen readme (list_byte_of_string "123456");
     EvOpenMember readme (list_byte_of_string "123456");
     EvRead HMember; EvClose HMember].
Proof.
  exact (proj1 (probes_close_their_handles secret_archive "secret.zip" readme
                  (list_byte_of_string "123456") (aes_reader []) init_state)
           good_handle eq_refl).
Defined.

Lemma rstrip_removes_one_line_feed_witness :
  ~ In CR [97; 10]%N
  /\ ([97; 10]%N = rstrip [97; 10]%N
      \/ [97; 10]%N = rstrip [97; 10]%N ++ [LF]).
Proof.
  destruct (rstrip_removes_one_line_feed crlf_txt [97; 10]%N) as (H1 & H2 & _).
  - vm_compute. now left.
  - split; [exact H1|exact H2].
Defined.

Lemma ignore_agrees_on_valid_utf8_witness :
  utf8_decode Ignore (t_bytes top_txt)
  = Ok (py ("admin" ++ nl ++ "123456" ++ nl ++ "password" ++ nl)%string).
Proof.
  apply (ignore_agrees_on_valid_utf8 top_txt
           (py ("admin" ++ nl ++ "123456" ++ nl ++ "password" ++ nl)%string)).
  vm_compute. reflexivity.
Defined.

Lemma every_candidate_is_probed_witness :
  exists rc st',
    find_password w1 "secret.zip" "top.txt" false init_state = (Ok rc, st')
    /\ List.length (candidates_read (trace st'))
       <= List.length (probes (trace st')).
Proof.
  exact (proj2 (every_candidate_is_probed w1 "secret.zip" "top.txt" false
                  secret_archive readme top_txt secret_zip_ready eq_refl)).
Defined.

Lemma wordlist_bytes_are_tried_witness :
  str_encode UTF8 (List.concat (fst (file_iter top_txt)))
  = Ok (t_bytes top_txt).
Proof.
  refine (proj1 (proj2 (wordlist_bytes_are_tried top_txt
                          (py ("admin" ++ nl ++ "123456" ++ nl ++ "password"
                               ++ nl)%string) _ eq_refl _))).
  - vm_compute. reflexivity.
  - vm_compute. intuition discriminate.
Defined.

Lemma streams_follow_exit_code_witness :
  exists rc st',
    find_password w1 "secret.zip" "missing.txt" false init_state
    = (Ok rc, st')
    /\ (rc = 0%Z <-> stdout st' <> [])
    /\ stderr st' = errors (stderr st').
Proof.
  destruct (streams_follow_exit_code w1 "secret.zip" "missing.txt" false)
    as (rc & st' & E & _ & O & _ & _ & Q).
  exists rc, st'. split; [exact E|]. split; [exact O|]. now apply Q.
Defined.

Lemma utf8_round_trip_witness :
  str_encode UTF8 [233; 8364]%N = Ok [xc3; xa9; xe2; x82; xac]
  /\ utf8_decode Ignore [xc3; xa9; xe2; x82; xac] = Ok [233; 8364]%N.
Proof.
  destruct (utf8_round_trip [xc3; xa9; xe2; x82; xac] [233; 8364]%N)
    as [[H1 _] H2].
  split; [apply H1; reflexivity|]. apply H2. apply H1. reflexivity.
Defined.

Lemma latin1_round_trip_witness :
  str_encode Latin1 [233; 255]%N = Ok [xe9; xff].
Proof. apply (latin1_round_trip [233; 255]%N [xe9; xff]). reflexivity. Defined.

(** [brute_zip.py -z secret.zip] in a directory without [TOP500.txt]. *)
Lemma main_exit_status_witness :
  find_password w1 "secret.zip" "TOP500.txt" false init_state
  = (Ok (exit_status (main w1 (MkCli (Some "secret.zip") None false))),
     final (main w1 (MkCli (Some "secret.zip") None false))).
Proof.
  destruct (main_exit_status w1 (MkCli (Some "secret.zip") None false))
    as (_ & _ & _ & H).
  exact (proj1 (H "secret.zip" eq_refl)).
Defined.

Example main_without_wordlist_option :
  exit_status (main w1 (MkCli (Some "secret.zip") None false)) = 2%Z
  /\ stderr (final (main w1 (MkCli (Some "secret.zip") None false)))
     = [ErrWordlistNotFound "TOP500.txt"].
Proof. split; reflexivity. Qed.

Example main_finds_password :
  exit_status (main w1 (MkCli (Some "secret.zip") (Some "top.txt") false))
  = 0%Z
  /\ stdout (final (main w1 (MkCli (Some "secret.zip") (Some "top.txt")
                               false)))
     = py "123456" ++ [LF].
Proof. split; reflexivity. Qed.
